(** * Atelier: the freehand drawing engine of [src/components/Canvas.tsx]

    A shallow embedding of the canvas component: the refs and state it
    keeps, the 2D rendering context it drives, its three paint
    algorithms, its pointer handlers and its imperative handle.

    Conventions of the embedding.
    - A JavaScript [number] is a real number and the component computes
      in exact arithmetic.  Where the end of an interval is at stake the
      rounding of IEEE-754 doubles is written out (section Doubles): the
      sizes are computed again with a rounding after every operation, and
      on the binary64 floats themselves.
    - The component renders one [<canvas>] element.  That element, its 2D
      context and its bitmap live in the field [elem] of the state; a React
      ref is either [null] or points to that one object, so everything
      drawn through [contextRef] is seen by [save] through [canvasRef].
    - The bitmap is kept as the list of paint operations performed since
      it was last reset, oldest first; rasterisation is not modelled.
    - [Math.random()] reads the next value of a stream of draws carried by
      the state.
    - A handler is a state transformer that may throw; what it wrote
      before throwing stays written. *)

From Stdlib Require Import Reals Lra Lia List String ZArith Bool.
From Stdlib Require DecimalString DecimalNat PrimFloat FloatOps SpecFloat.
Import ListNotations.
Open Scope R_scope.

Module Canvas.

(** ** Data model *)

Definition number := R.

Inductive Tool := brush | splatter | drip.

Record CanvasProps := mkProps {
  color : string;
  tool : Tool;
  brushSize : number
}.

Record Point := mkPoint { px : number; py : number }.

Record Size := mkSize { width : number; height : number }.

(** What [getBoundingClientRect()] returns. *)
Record DOMRect := mkRect {
  rect_left : number;
  rect_top : number;
  rect_width : number;
  rect_height : number
}.

Record Touch := mkTouch { touch_clientX : number; touch_clientY : number }.

(** [React.MouseEvent | React.TouchEvent]; the test ['touches' in e]
    tells them apart. *)
Inductive InteractionEvent :=
  | MouseEvent (clientX clientY : number)
  | TouchEvent (touches : list Touch).

(** ** The 2D rendering context *)

Inductive LineCap := cap_butt | cap_round | cap_square.
Inductive LineJoin := join_miter | join_round | join_bevel.

Inductive PathCmd :=
  | MoveTo (x y : number)
  | LineTo (x y : number)
  | QuadraticCurveTo (cpx cpy x y : number)
  | Arc (x y radius startAngle endAngle : number)
  | Ellipse (x y radiusX radiusY rotation startAngle endAngle : number).

(** The current transformation; the component only ever scales. *)
Record Transform := mkTransform { scaleX : number; scaleY : number }.

(** One operation that put pixels on the bitmap, with the context
    attributes it was painted under.  Coordinates are those the drawing
    code passed; [Transform] maps them to physical pixels. *)
Inductive Paint :=
  | PaintRect (tr : Transform) (style : string) (x y w h : number)
  | PaintFill (tr : Transform) (style : string) (path : list PathCmd)
  | PaintStroke (tr : Transform) (style : string) (lineWidth : number)
      (cap : LineCap) (join : LineJoin) (path : list PathCmd).

Record Context2D := mkContext {
  transform : Transform;
  lineCap : LineCap;
  lineJoin : LineJoin;
  fillStyle : string;
  strokeStyle : string;
  lineWidth : number;
  path : list PathCmd
}.

(** The state of a context that was just created or reset. *)
Definition default_context : Context2D :=
  {| transform := mkTransform 1 1;
     lineCap := cap_butt;
     lineJoin := join_miter;
     fillStyle := "#000000";
     strokeStyle := "#000000";
     lineWidth := 1;
     path := [] |}.

Record HTMLCanvasElement := mkCanvas {
  canvas_width : number;
  canvas_height : number;
  style_width : option number;
  style_height : option number;
  boundingRect : DOMRect;
  supports2d : bool;
  context : Context2D;
  bitmap : list Paint
}.

(** [toDataURL('image/png')]: an encoding of the physical buffer. *)
Record DataURL := mkDataURL {
  mime : string;
  image_width : number;
  image_height : number;
  image_content : list Paint
}.

(** A React ref to the canvas element or to its context. *)
Inductive Ref := RefNull | RefElem.

Inductive JsError := TypeError.

(** ** Component state *)

Record State := mkState {
  elem : HTMLCanvasElement;
  canvasRef : Ref;
  contextRef : Ref;
  isDrawing : bool;
  lastPoint : option Point;
  canvasSize : Size;
  random_source : nat -> number;
  random_calls : nat;
  prevented : nat
}.

Definition with_elem (f : HTMLCanvasElement -> HTMLCanvasElement) (s : State) : State :=
  mkState (f (elem s)) (canvasRef s) (contextRef s) (isDrawing s) (lastPoint s)
    (canvasSize s) (random_source s) (random_calls s) (prevented s).

Definition with_contextRef (r : Ref) (s : State) : State :=
  mkState (elem s) (canvasRef s) r (isDrawing s) (lastPoint s)
    (canvasSize s) (random_source s) (random_calls s) (prevented s).

Definition with_canvasRef (r : Ref) (s : State) : State :=
  mkState (elem s) r (contextRef s) (isDrawing s) (lastPoint s)
    (canvasSize s) (random_source s) (random_calls s) (prevented s).

Definition with_isDrawing (b : bool) (s : State) : State :=
  mkState (elem s) (canvasRef s) (contextRef s) b (lastPoint s)
    (canvasSize s) (random_source s) (random_calls s) (prevented s).

Definition with_lastPoint (p : option Point) (s : State) : State :=
  mkState (elem s) (canvasRef s) (contextRef s) (isDrawing s) p
    (canvasSize s) (random_source s) (random_calls s) (prevented s).

Definition with_canvasSize (sz : Size) (s : State) : State :=
  mkState (elem s) (canvasRef s) (contextRef s) (isDrawing s) (lastPoint s)
    sz (random_source s) (random_calls s) (prevented s).

Definition with_random_calls (n : nat) (s : State) : State :=
  mkState (elem s) (canvasRef s) (contextRef s) (isDrawing s) (lastPoint s)
    (canvasSize s) (random_source s) n (prevented s).

Definition with_prevented (n : nat) (s : State) : State :=
  mkState (elem s) (canvasRef s) (contextRef s) (isDrawing s) (lastPoint s)
    (canvasSize s) (random_source s) (random_calls s) n.

Definition with_context (f : Context2D -> Context2D) (c : HTMLCanvasElement)
  : HTMLCanvasElement :=
  mkCanvas (canvas_width c) (canvas_height c) (style_width c) (style_height c)
    (boundingRect c) (supports2d c) (f (context c)) (bitmap c).

Definition with_bitmap (f : list Paint -> list Paint) (c : HTMLCanvasElement)
  : HTMLCanvasElement :=
  mkCanvas (canvas_width c) (canvas_height c) (style_width c) (style_height c)
    (boundingRect c) (supports2d c) (context c) (f (bitmap c)).

(** ** Computations: state, and an exception that keeps the state *)

Inductive Outcome (A : Type) :=
  | Returned (a : A)
  | Threw (err : JsError).
Arguments Returned {A} a.
Arguments Threw {A} err.

Definition M (A : Type) := State -> Outcome A * State.

Definition ret {A} (a : A) : M A := fun s => (Returned a, s).

Definition bind {A B} (m : M A) (k : A -> M B) : M B :=
  fun s => match m s with
           | (Returned a, s') => k a s'
           | (Threw e, s') => (Threw e, s')
           end.

Definition throw {A} (e : JsError) : M A := fun s => (Threw e, s).

Definition read {A} (f : State -> A) : M A := fun s => (Returned (f s), s).

Definition modify (f : State -> State) : M unit := fun s => (Returned tt, f s).

Definition exec {A} (m : M A) (s : State) : State := snd (m s).

Definition result {A} (m : M A) (s : State) : Outcome A := fst (m s).

Declare Scope js_scope.
Delimit Scope js_scope with js.
Notation "x <- m ;; k" := (bind m (fun x => k))
  (at level 61, m at next level, right associativity) : js_scope.
Notation "m ;; k" := (bind m (fun _ => k))
  (at level 61, right associativity) : js_scope.
Open Scope js_scope.

(** ** Platform operations *)

Definition Math_PI : number := PI.

Definition Math_floor (v : number) : number := IZR (Zfloor v).

(** [Math.random()]: the next draw of the stream. *)
Definition Math_random : M number :=
  fun s => (Returned (random_source s (random_calls s)),
            with_random_calls (S (random_calls s)) s).

(** [v > w] on numbers. *)
Definition gt (v w : number) : bool := if Rgt_dec v w then true else false.

(** How often [for (let i = 0; i < bound; i++)] runs its body: the number
    of naturals below [bound]. *)
Definition iterations (bound : number) : nat := Z.to_nat (Zceil bound).

Fixpoint repeat_body (n : nat) (body : M unit) : M unit :=
  match n with
  | O => ret tt
  | S n' => body ;; repeat_body n' body
  end.

Definition for_loop (bound : number) (body : M unit) : M unit :=
  repeat_body (iterations bound) body.

(** [e.preventDefault()]. *)
Definition preventDefault : M unit :=
  modify (fun s => with_prevented (S (prevented s)) s).

(** Assigning [canvas.width] or [canvas.height] sets the bitmap
    dimensions: the bitmap is cleared and the context goes back to its
    default state. *)
Definition reset_surface (c : HTMLCanvasElement) : HTMLCanvasElement :=
  with_bitmap (fun _ => []) (with_context (fun _ => default_context) c).

Definition set_canvas_width (v : number) : M unit :=
  modify (with_elem (fun c =>
    reset_surface (mkCanvas v (canvas_height c) (style_width c) (style_height c)
                     (boundingRect c) (supports2d c) (context c) (bitmap c)))).

Definition set_canvas_height (v : number) : M unit :=
  modify (with_elem (fun c =>
    reset_surface (mkCanvas (canvas_width c) v (style_width c) (style_height c)
                     (boundingRect c) (supports2d c) (context c) (bitmap c)))).

Definition set_style_width (v : number) : M unit :=
  modify (with_elem (fun c =>
    mkCanvas (canvas_width c) (canvas_height c) (Some v) (style_height c)
      (boundingRect c) (supports2d c) (context c) (bitmap c))).

Definition set_style_height (v : number) : M unit :=
  modify (with_elem (fun c =>
    mkCanvas (canvas_width c) (canvas_height c) (style_width c) (Some v)
      (boundingRect c) (supports2d c) (context c) (bitmap c))).

(** [canvas.getContext('2d')]: the element's context, or null. *)
Definition getContext2d : M Ref :=
  read (fun s => if supports2d (elem s) then RefElem else RefNull).

Definition toDataURL (c : HTMLCanvasElement) : DataURL :=
  mkDataURL "image/png" (canvas_width c) (canvas_height c) (bitmap c).

Definition on_context (f : Context2D -> Context2D) : M unit :=
  modify (with_elem (with_context f)).

Definition ctx_scale (sx sy : number) : M unit :=
  on_context (fun c =>
    mkContext (mkTransform (scaleX (transform c) * sx) (scaleY (transform c) * sy))
      (lineCap c) (lineJoin c) (fillStyle c) (strokeStyle c) (lineWidth c) (path c)).

Definition ctx_set_lineCap (v : LineCap) : M unit :=
  on_context (fun c =>
    mkContext (transform c) v (lineJoin c) (fillStyle c) (strokeStyle c)
      (lineWidth c) (path c)).

Definition ctx_set_lineJoin (v : LineJoin) : M unit :=
  on_context (fun c =>
    mkContext (transform c) (lineCap c) v (fillStyle c) (strokeStyle c)
      (lineWidth c) (path c)).

Definition ctx_set_fillStyle (v : string) : M unit :=
  on_context (fun c =>
    mkContext (transform c) (lineCap c) (lineJoin c) v (strokeStyle c)
      (lineWidth c) (path c)).

Definition ctx_set_strokeStyle (v : string) : M unit :=
  on_context (fun c =>
    mkContext (transform c) (lineCap c) (lineJoin c) (fillStyle c) v
      (lineWidth c) (path c)).

Definition ctx_set_lineWidth (v : number) : M unit :=
  on_context (fun c =>
    mkContext (transform c) (lineCap c) (lineJoin c) (fillStyle c) (strokeStyle c)
      v (path c)).

Definition set_path (p : list PathCmd) (c : Context2D) : Context2D :=
  mkContext (transform c) (lineCap c) (lineJoin c) (fillStyle c) (strokeStyle c)
    (lineWidth c) p.

Definition ctx_beginPath : M unit := on_context (set_path []).

Definition ctx_add (cmd : PathCmd) : M unit :=
  on_context (fun c => set_path (path c ++ [cmd]) c).

Definition ctx_moveTo (x y : number) : M unit := ctx_add (MoveTo x y).
Definition ctx_lineTo (x y : number) : M unit := ctx_add (LineTo x y).
Definition ctx_quadraticCurveTo (cpx cpy x y : number) : M unit :=
  ctx_add (QuadraticCurveTo cpx cpy x y).
Definition ctx_arc (x y r a0 a1 : number) : M unit := ctx_add (Arc x y r a0 a1).
Definition ctx_ellipse (x y rx ry rot a0 a1 : number) : M unit :=
  ctx_add (Ellipse x y rx ry rot a0 a1).

Definition paint (op : Context2D -> Paint) : M unit :=
  modify (with_elem (fun c => with_bitmap (fun b => b ++ [op (context c)]) c)).

Definition ctx_fillRect (x y w h : number) : M unit :=
  paint (fun c => PaintRect (transform c) (fillStyle c) x y w h).

Definition ctx_fill : M unit :=
  paint (fun c => PaintFill (transform c) (fillStyle c) (path c)).

Definition ctx_stroke : M unit :=
  paint (fun c => PaintStroke (transform c) (strokeStyle c) (lineWidth c)
                    (lineCap c) (lineJoin c) (path c)).

(** ** The component *)

Definition background : string := "#1a1a1a".

(** [useRef] and [useState] initial values, for a canvas element that the
    page has laid out at [rect]. *)
Definition fresh_element (rect : DOMRect) (has2d : bool) : HTMLCanvasElement :=
  mkCanvas 300 150 None None rect has2d default_context [].

Definition initial (rect : DOMRect) (has2d : bool) (rnd : nat -> number) : State :=
  mkState (fresh_element rect has2d) RefNull RefNull false None
    (mkSize 800 600) rnd 0 0.

(** React attaches [canvasRef] when the element is committed. *)
Definition mount : M unit := modify (with_canvasRef RefElem).

(** The effect "Setup canvas", run after mount and whenever [canvasSize]
    was set. *)
Definition setupCanvas : M unit :=
  canvas <- read canvasRef ;;
  match canvas with
  | RefNull => ret tt
  | RefElem =>
      size <- read canvasSize ;;
      set_canvas_width (width size * 2) ;;
      set_canvas_height (height size * 2) ;;
      set_style_width (width size) ;;
      set_style_height (height size) ;;
      ctx <- getContext2d ;;
      match ctx with
      | RefNull => ret tt
      | RefElem =>
          ctx_scale 2 2 ;;
          ctx_set_lineCap cap_round ;;
          ctx_set_lineJoin join_round ;;
          ctx_set_fillStyle background ;;
          ctx_fillRect 0 0 (width size) (height size) ;;
          modify (with_contextRef RefElem)
      end
  end.

Definition setCanvasSize (sz : Size) : M unit := modify (with_canvasSize sz).

(** [updateSize], with what [containerRef.current] measured ([None] when
    the container ref is null), followed by the effect its state update
    schedules. *)
Definition updateSize (container : option DOMRect) : M unit :=
  match container with
  | Some rect =>
      setCanvasSize (mkSize (Math_floor (rect_width rect)) (Math_floor (rect_height rect))) ;;
      setupCanvas
  | None => ret tt
  end.

Definition getCoordinates (e : InteractionEvent) : M Point :=
  canvas <- read canvasRef ;;
  match canvas with
  | RefNull => ret (mkPoint 0 0)
  | RefElem =>
      rect <- read (fun s => boundingRect (elem s)) ;;
      match e with
      | TouchEvent touches =>
          match touches with
          | t :: _ => ret (mkPoint (touch_clientX t - rect_left rect)
                                   (touch_clientY t - rect_top rect))
          | [] => throw TypeError
          end
      | MouseEvent clientX clientY =>
          ret (mkPoint (clientX - rect_left rect) (clientY - rect_top rect))
      end
  end.

Definition drawBrushStroke (props : CanvasProps) (start end_ : Point) : M unit :=
  ctx <- read contextRef ;;
  match ctx with
  | RefNull => ret tt
  | RefElem =>
      ctx_set_strokeStyle (color props) ;;
      ctx_set_lineWidth (brushSize props) ;;
      ctx_beginPath ;;
      ctx_moveTo (px start) (py start) ;;
      ctx_lineTo (px end_) (py end_) ;;
      ctx_stroke
  end.

(** The body of the droplet loop; it does not use the loop counter. *)
Definition splatter_droplet (props : CanvasProps) (x y : number) : M unit :=
  r1 <- Math_random ;;
  let angle := r1 * Math_PI * 2 in
  r2 <- Math_random ;;
  let distance := r2 * brushSize props * 3 in
  let dropletX := x + cos angle * distance in
  let dropletY := y + sin angle * distance in
  r3 <- Math_random ;;
  let dropletSize := r3 * brushSize props * 0.5 + 2 in
  ctx_set_fillStyle (color props) ;;
  ctx_beginPath ;;
  ctx_arc dropletX dropletY dropletSize 0 (Math_PI * 2) ;;
  ctx_fill.

Definition drawSplatter (props : CanvasProps) (x y : number) : M unit :=
  ctx <- read contextRef ;;
  match ctx with
  | RefNull => ret tt
  | RefElem =>
      r <- Math_random ;;
      let numDroplets := Math_floor (r * 12) + 8 in
      for_loop numDroplets (splatter_droplet props x y)
  end.

Definition drawDrip (props : CanvasProps) (x y : number) : M unit :=
  ctx <- read contextRef ;;
  match ctx with
  | RefNull => ret tt
  | RefElem =>
      r1 <- Math_random ;;
      let dripLength := r1 * 80 + 40 in
      r2 <- Math_random ;;
      let dripWidth := r2 * brushSize props * 0.5 + brushSize props * 0.5 in
      ctx_set_fillStyle (color props) ;;
      ctx_beginPath ;;
      ctx_ellipse x y dripWidth dripWidth 0 0 (Math_PI * 2) ;;
      ctx_fill ;;
      ctx_beginPath ;;
      ctx_moveTo (x - dripWidth * 0.3) y ;;
      ctx_quadraticCurveTo (x - dripWidth * 0.2) (y + dripLength * 0.5) x (y + dripLength) ;;
      ctx_quadraticCurveTo (x + dripWidth * 0.2) (y + dripLength * 0.5) (x + dripWidth * 0.3) y ;;
      ctx_fill
  end.

Definition handleStart (props : CanvasProps) (e : InteractionEvent) : M unit :=
  preventDefault ;;
  modify (with_isDrawing true) ;;
  coords <- getCoordinates e ;;
  modify (with_lastPoint (Some coords)) ;;
  match tool props with
  | splatter => drawSplatter props (px coords) (py coords)
  | drip => drawDrip props (px coords) (py coords)
  | brush => ret tt
  end.

Definition is_tool (t u : Tool) : bool :=
  match t, u with
  | brush, brush | splatter, splatter | drip, drip => true
  | _, _ => false
  end.

Definition handleMove (props : CanvasProps) (e : InteractionEvent) : M unit :=
  preventDefault ;;
  drawing <- read isDrawing ;;
  if negb drawing then ret tt else
  coords <- getCoordinates e ;;
  last <- read lastPoint ;;
  match is_tool (tool props) brush, last with
  | true, Some p => drawBrushStroke props p coords
  | _, _ =>
      chance <- (if is_tool (tool props) splatter
                 then r <- Math_random ;; ret (gt r 0.7)
                 else ret false) ;;
      if chance then drawSplatter props (px coords) (py coords) else
      chance' <- (if is_tool (tool props) drip
                  then r <- Math_random ;; ret (gt r 0.9)
                  else ret false) ;;
      if chance' then drawDrip props (px coords) (py coords) else ret tt
  end ;;
  modify (with_lastPoint (Some coords)).

Definition handleEnd : M unit :=
  modify (with_isDrawing false) ;;
  modify (with_lastPoint None).

(** The imperative handle. *)
Definition clear : M unit :=
  ctx <- read contextRef ;;
  match ctx with
  | RefNull => ret tt
  | RefElem =>
      ctx_set_fillStyle background ;;
      size <- read canvasSize ;;
      ctx_fillRect 0 0 (width size) (height size)
  end.

Definition save : M (option DataURL) :=
  canvas <- read canvasRef ;;
  match canvas with
  | RefNull => ret None
  | RefElem => c <- read elem ;; ret (Some (toDataURL c))
  end.

(** The listeners of the [<canvas>] element. *)
Inductive DomEvent :=
  | onMouseDown (e : InteractionEvent)
  | onMouseMove (e : InteractionEvent)
  | onMouseUp
  | onMouseLeave
  | onTouchStart (e : InteractionEvent)
  | onTouchMove (e : InteractionEvent)
  | onTouchEnd.

Definition dispatch (props : CanvasProps) (ev : DomEvent) : M unit :=
  match ev with
  | onMouseDown e | onTouchStart e => handleStart props e
  | onMouseMove e | onTouchMove e => handleMove props e
  | onMouseUp | onMouseLeave | onTouchEnd => handleEnd
  end.

(** [configure(w, h)] of the Surface Manager: the state update that a
    resize performs, followed by the effect it triggers. *)
Definition configure (w h : number) : M unit :=
  setCanvasSize (mkSize w h) ;; setupCanvas.

(** The physical pixels a filled rectangle covers: its corners after the
    transformation it was painted under. *)
Definition physical_extent (op : Paint) : option (number * number * number * number) :=
  match op with
  | PaintRect tr _ x y w h =>
      Some (scaleX tr * x, scaleY tr * y, scaleX tr * (x + w), scaleY tr * (y + h))
  | _ => None
  end.

(** What the page can do to the component between two renders. *)
Inductive Action :=
  | act_mount
  | act_effect
  | act_resize (container : option DOMRect)
  | act_event (props : CanvasProps) (ev : DomEvent)
  | act_clear
  | act_save.

Definition perform (a : Action) (s : State) : State :=
  match a with
  | act_mount => exec mount s
  | act_effect => exec setupCanvas s
  | act_resize container => exec (updateSize container) s
  | act_event props ev => exec (dispatch props ev) s
  | act_clear => exec clear s
  | act_save => exec save s
  end.

Inductive reachable : State -> Prop :=
  | reach_initial rect has2d rnd : reachable (initial rect has2d rnd)
  | reach_step s a : reachable s -> reachable (perform a s).

(** The session invariant: an idle session holds no point. *)
Definition idle_has_no_point (s : State) : Prop :=
  isDrawing s = false -> lastPoint s = None.


(** The value of [getCoordinates], which reads the state but never writes
    it: a function of the canvas ref, of the canvas's place on screen and
    of the event (lemma [getCoordinates_normalized]). *)
Definition normalized (canvas : Ref) (rect : DOMRect) (e : InteractionEvent)
  : Outcome Point :=
  match canvas with
  | RefNull => Returned (mkPoint 0 0)
  | RefElem =>
      match e with
      | TouchEvent [] => Threw TypeError
      | TouchEvent (t :: _) =>
          Returned (mkPoint (touch_clientX t - rect_left rect)
                            (touch_clientY t - rect_top rect))
      | MouseEvent clientX clientY =>
          Returned (mkPoint (clientX - rect_left rect) (clientY - rect_top rect))
      end
  end.

(** Events as browsers deliver them to the start and move listeners: a
    touch event lists at least the contact that caused it. *)
Definition well_formed (e : InteractionEvent) : Prop :=
  match e with
  | TouchEvent [] => False
  | _ => True
  end.

(** ** What the renderers leave on the bitmap

    The paint operations each renderer appends, as functions of the pen
    (the context attributes that [setupCanvas] sets and no renderer
    changes) and of the random draws it consumed.  Lemmas [drawBrushStroke_drew], [drawSplatter_drew] and
    [drawDrip_drew] show that the code paints exactly these. *)

Record Pen := mkPen {
  pen_transform : Transform;
  pen_cap : LineCap;
  pen_join : LineJoin
}.

Definition pen_of (c : Context2D) : Pen :=
  mkPen (transform c) (lineCap c) (lineJoin c).

Definition pen (s : State) : Pen := pen_of (context (elem s)).

Definition brush_segment (p : Pen) (props : CanvasProps) (start end_ : Point)
  : Paint :=
  PaintStroke (pen_transform p) (color props) (brushSize props) (pen_cap p) (pen_join p)
    [MoveTo (px start) (py start); LineTo (px end_) (py end_)].

Definition droplet_angle (u : number) : number := u * Math_PI * 2.
Definition droplet_distance (props : CanvasProps) (u : number) : number :=
  u * brushSize props * 3.
Definition droplet_size (props : CanvasProps) (u : number) : number :=
  u * brushSize props * 0.5 + 2.
Definition droplet_center (props : CanvasProps) (x y u1 u2 : number) : Point :=
  mkPoint (x + cos (droplet_angle u1) * droplet_distance props u2)
          (y + sin (droplet_angle u1) * droplet_distance props u2).

Definition droplet_paint (p : Pen) (props : CanvasProps) (x y u1 u2 u3 : number)
  : Paint :=
  PaintFill (pen_transform p) (color props)
    [Arc (px (droplet_center props x y u1 u2)) (py (droplet_center props x y u1 u2))
         (droplet_size props u3) 0 (Math_PI * 2)].

(** [n] droplets drawn from the draws numbered [k], [k+1], ... *)
Fixpoint droplets (p : Pen) (props : CanvasProps) (x y : number)
    (rnd : nat -> number) (k n : nat) : list Paint :=
  match n with
  | O => []
  | S n' =>
      droplet_paint p props x y (rnd k) (rnd (k + 1)%nat) (rnd (k + 2)%nat)
      :: droplets p props x y rnd (k + 3) n'
  end.

Definition numDroplets (u : number) : number := Math_floor (u * 12) + 8.

Definition splatter_cluster (p : Pen) (props : CanvasProps) (x y : number)
    (rnd : nat -> number) (k : nat) : list Paint :=
  droplets p props x y rnd (k + 1) (iterations (numDroplets (rnd k))).

Definition dripLength (u : number) : number := u * 80 + 40.
Definition dripWidth (props : CanvasProps) (u : number) : number :=
  u * brushSize props * 0.5 + brushSize props * 0.5.

Definition drip_blob (props : CanvasProps) (x y u2 : number) : list PathCmd :=
  [Ellipse x y (dripWidth props u2) (dripWidth props u2) 0 0 (Math_PI * 2)].

Definition drip_teardrop (props : CanvasProps) (x y u1 u2 : number) : list PathCmd :=
  [MoveTo (x - dripWidth props u2 * 0.3) y;
   QuadraticCurveTo (x - dripWidth props u2 * 0.2) (y + dripLength u1 * 0.5)
                    x (y + dripLength u1);
   QuadraticCurveTo (x + dripWidth props u2 * 0.2) (y + dripLength u1 * 0.5)
                    (x + dripWidth props u2 * 0.3) y].

Definition drip_paints (p : Pen) (props : CanvasProps) (x y u1 u2 : number)
  : list Paint :=
  [PaintFill (pen_transform p) (color props) (drip_blob props x y u2);
   PaintFill (pen_transform p) (color props) (drip_teardrop props x y u1 u2)].

(** [s] after [paints] were appended to the bitmap and [calls] random
    draws were consumed, the context now being [c']. *)
Definition repaint (c' : Context2D) (paints : list Paint) (calls : nat) (s : State)
  : State :=
  mkState
    (mkCanvas (canvas_width (elem s)) (canvas_height (elem s)) (style_width (elem s))
       (style_height (elem s)) (boundingRect (elem s)) (supports2d (elem s)) c'
       (bitmap (elem s) ++ paints))
    (canvasRef s) (contextRef s) (isDrawing s) (lastPoint s) (canvasSize s)
    (random_source s) (random_calls s + calls) (prevented s).

(** A renderer took [s] to [s']: it returned normally, appended [paints],
    consumed [calls] draws, kept the pen and changed nothing else. *)
Definition drew (m : M unit) (s : State) (paints : list Paint) (calls : nat) : Prop :=
  exists c', pen_of c' = pen s /\
             m s = (Returned tt, repaint c' paints calls s).

(** ** Sessions *)

(** A run of move events, each with the props of the render it arrives in. *)
Fixpoint run_moves (moves : list (CanvasProps * InteractionEvent)) : M unit :=
  match moves with
  | [] => ret tt
  | (props, e) :: rest => handleMove props e ;; run_moves rest
  end.

(** The strokes of a polyline that leaves [from] and visits the points
    of [legs] in order, each leg drawn with the props of its move. *)
Fixpoint polyline (p : Pen) (from : Point) (legs : list (CanvasProps * Point))
  : list Paint :=
  match legs with
  | [] => []
  | (props, to) :: rest => brush_segment p props from to :: polyline p to rest
  end.

(** The two ends and the width of a stroked straight segment. *)
Definition stroke_ends (op : Paint) : option (Point * Point * number) :=
  match op with
  | PaintStroke _ _ w _ _ [MoveTo x0 y0; LineTo x1 y1] =>
      Some (mkPoint x0 y0, mkPoint x1 y1, w)
  | _ => None
  end.

(** The paints are straight segments that form a chain: the first leaves
    [from], each next one leaves where the one before ended, and their
    ends are the points [pts], in order. *)
Fixpoint connected (from : Point) (paints : list Paint) (pts : list Point) : Prop :=
  match paints, pts with
  | [], [] => True
  | op :: paints', p :: pts' =>
      (exists w, stroke_ends op = Some (from, p, w)) /\ connected p paints' pts'
  | _, _ => False
  end.

Definition stroke_width (op : Paint) : option number :=
  match op with
  | PaintStroke _ _ w _ _ _ => Some w
  | _ => None
  end.

(** The state in which [handleStart] calls the renderer: the default
    suppressed, the session active, the point recorded. *)
Definition started (p : Point) (s : State) : State :=
  with_lastPoint (Some p) (with_isDrawing true (with_prevented (S (prevented s)) s)).

(** The state in which [handleMove] goes on after [e.preventDefault()]. *)
Definition moving (s : State) : State := with_prevented (S (prevented s)) s.

(** What a move processed during a session paints, and how many random
    draws it consumes, when it normalizes to [p] (lemma
    [handleMove_effect]).  The first draw of the splatter and drip tools
    is the one compared with the threshold. *)
Definition move_paints (s : State) (props : CanvasProps) (p : Point) : list Paint :=
  let rnd := random_source s in
  let k := random_calls s in
  match contextRef s with
  | RefNull => []
  | RefElem =>
      match tool props, lastPoint s with
      | brush, Some q => [brush_segment (pen s) props q p]
      | brush, None => []
      | splatter, _ =>
          if gt (rnd k) 0.7
          then splatter_cluster (pen s) props (px p) (py p) rnd (k + 1)
          else []
      | drip, _ =>
          if gt (rnd k) 0.9
          then drip_paints (pen s) props (px p) (py p)
                 (rnd (k + 1)%nat) (rnd (k + 2)%nat)
          else []
      end
  end.

Definition move_calls (s : State) (props : CanvasProps) : nat :=
  let rnd := random_source s in
  let k := random_calls s in
  match tool props with
  | brush => 0
  | splatter =>
      1 + match contextRef s with
          | RefNull => 0
          | RefElem =>
              if gt (rnd k) 0.7
              then 1 + 3 * iterations (numDroplets (rnd (k + 1)%nat))
              else 0
          end
  | drip =>
      1 + match contextRef s with
          | RefNull => 0
          | RefElem => if gt (rnd k) 0.9 then 2 else 0
          end
  end.

(** What a start that normalizes to [p] paints and draws (lemma
    [handleStart_effect]). *)
Definition start_paints (s : State) (props : CanvasProps) (p : Point) : list Paint :=
  match contextRef s with
  | RefNull => []
  | RefElem =>
      match tool props with
      | brush => []
      | splatter =>
          splatter_cluster (pen s) props (px p) (py p) (random_source s) (random_calls s)
      | drip =>
          drip_paints (pen s) props (px p) (py p)
            (random_source s (random_calls s))
            (random_source s (random_calls s + 1)%nat)
      end
  end.

Definition start_calls (s : State) (props : CanvasProps) : nat :=
  match contextRef s with
  | RefNull => 0
  | RefElem =>
      match tool props with
      | brush => 0
      | splatter => 1 + 3 * iterations (numDroplets (random_source s (random_calls s)))
      | drip => 2
      end
  end.

(** ** Geometry and chance *)

(** The value a uniform draw [u] of [0, 1) is mapped to when it is
    stretched over [lo, hi): the usual way to sample that interval. *)
Definition uniform_on (lo hi u : number) : number := lo + u * (hi - lo).


Definition distance_between (a b : Point) : number :=
  sqrt ((px b - px a) * (px b - px a) + (py b - py a) * (py b - py a)).

(** A quadratic curve: start, control point, end. *)
Definition Curve : Type := Point * Point * Point.

Definition bezier (c : Curve) (t : number) : Point :=
  let '(p0, p1, p2) := c in
  mkPoint ((1 - t) * (1 - t) * px p0 + 2 * (1 - t) * t * px p1 + t * t * px p2)
          ((1 - t) * (1 - t) * py p0 + 2 * (1 - t) * t * py p1 + t * t * py p2).

Fixpoint curves_from (cur : Point) (cmds : list PathCmd) : list Curve :=
  match cmds with
  | QuadraticCurveTo cpx cpy x y :: rest =>
      (cur, mkPoint cpx cpy, mkPoint x y) :: curves_from (mkPoint x y) rest
  | _ => []
  end.

(** The quadratic curves of a path that starts with a [moveTo] and goes
    on with [quadraticCurveTo]s, each starting where the last one ended. *)
Definition quadratic_curves (cmds : list PathCmd) : list Curve :=
  match cmds with
  | MoveTo x y :: rest => curves_from (mkPoint x y) rest
  | _ => []
  end.

(** The reflection in the vertical line through [x]. *)
Definition mirror (x : number) (p : Point) : Point := mkPoint (2 * x - px p) (py p).

(** For a shape bounded by a curve going down and a curve coming back up:
    the horizontal gap between the two at parameter [t] of the first. *)
Definition width_at (cs : list Curve) (t : number) : number :=
  match cs with
  | [down; up] => px (bezier up (1 - t)) - px (bezier down t)
  | _ => 0
  end.

(** A layout used in examples: the canvas at the top-left corner of the
    viewport. *)
Definition rect0 : DOMRect := mkRect 0 0 800 600.

(** ** The surface over a whole run *)

Definition paint_transform (op : Paint) : Transform :=
  match op with
  | PaintRect tr _ _ _ _ _ | PaintFill tr _ _ | PaintStroke tr _ _ _ _ _ => tr
  end.

Definition paint_style (op : Paint) : string :=
  match op with
  | PaintRect _ style _ _ _ _ | PaintFill _ style _ | PaintStroke _ style _ _ _ _ =>
      style
  end.

(** [op] was painted in colour [col] under the pen [pn]. *)
Definition painted_with (pn : Pen) (col : string) (op : Paint) : Prop :=
  paint_transform op = pen_transform pn /\
  paint_style op = col /\
  match op with
  | PaintStroke _ _ _ cap join _ => cap = pen_cap pn /\ join = pen_join pn
  | _ => True
  end.

(** The pen [setupCanvas] leaves: twice the scale, round caps and joins. *)
Definition logical_pen : Pen := mkPen (mkTransform 2 2) cap_round join_round.

(** The background over the logical size [sz], as [setupCanvas] and
    [clear] paint it. *)
Definition backdrop (sz : Size) : Paint :=
  PaintRect (mkTransform 2 2) background 0 0 (width sz) (height sz).

(** [op] was painted in logical coordinates, strokes with round ends. *)
Definition in_logical_space (op : Paint) : Prop :=
  paint_transform op = mkTransform 2 2 /\
  match op with
  | PaintStroke _ _ _ cap join _ => cap = cap_round /\ join = join_round
  | _ => True
  end.

(** What every reachable state satisfies (lemma [reachable_surface]):
    without a context nothing was painted; with one, the canvas is mounted,
    its backing store is twice the logical size, the pen is the logical
    one, and the bitmap is the background followed by paints made in
    logical coordinates. *)
Definition surface_invariant (s : State) : Prop :=
  match contextRef s with
  | RefNull => bitmap (elem s) = []
  | RefElem =>
      canvasRef s = RefElem /\
      supports2d (elem s) = true /\
      canvas_width (elem s) = width (canvasSize s) * 2 /\
      canvas_height (elem s) = height (canvasSize s) * 2 /\
      pen s = logical_pen /\
      exists rest,
        bitmap (elem s) = backdrop (canvasSize s) :: rest /\
        Forall in_logical_space rest
  end.

(** What no pointer event changes: the refs, the logical size, the random
    stream, the element's size, style and place, and the pen. *)
Definition kept_surface (s s' : State) : Prop :=
  canvasRef s' = canvasRef s /\
  contextRef s' = contextRef s /\
  canvasSize s' = canvasSize s /\
  random_source s' = random_source s /\
  canvas_width (elem s') = canvas_width (elem s) /\
  canvas_height (elem s') = canvas_height (elem s) /\
  style_width (elem s') = style_width (elem s) /\
  style_height (elem s') = style_height (elem s) /\
  boundingRect (elem s') = boundingRect (elem s) /\
  supports2d (elem s') = supports2d (elem s) /\
  pen s' = pen s.

(** What a listener may do going from [s] to [s']: keep the surface, move
    forward in the random stream, and append paints made in the colour of
    [props] under the pen of [s], none of them without a context. *)
Definition appends_in (props : CanvasProps) (s s' : State) : Prop :=
  kept_surface s s' /\
  (random_calls s <= random_calls s')%nat /\
  exists paints,
    bitmap (elem s') = bitmap (elem s) ++ paints /\
    Forall (painted_with (pen s) (color props)) paints /\
    (contextRef s = RefNull -> paints = []).

(** A whole gesture: press, moves, release. *)
Definition gesture (props : CanvasProps) (e : InteractionEvent)
    (moves : list (CanvasProps * InteractionEvent)) : M unit :=
  handleStart props e ;; run_moves moves ;; handleEnd.

(** The closed disc around [c] of radius [r]. *)
Definition in_disc (c : Point) (r : number) (q : Point) : Prop :=
  distance_between c q <= r.

(** ** The page around the canvas

    The toolbar ([components/Toolbar.tsx]), the gallery
    ([components/Gallery.tsx]) and the application that holds them
    ([App.tsx]).  A [setTimeout] callback is a pending timer that may fire
    at any later moment; how long it waits is not modelled.  What the
    browser provides ([JSON.stringify], [JSON.parse], the text of a data
    URL) is a parameter; [localStorage.setItem] is taken to succeed. *)

Module Toolbar.

Record ToolbarState := mkToolbar {
  showClearConfirm : bool;
  pendingTimeouts : nat
}.

Definition initial : ToolbarState := mkToolbar false 0.

(** [handleClear], where [onClear] acts on the rest of the page. *)
Definition handleClear {A : Type} (onClear : A -> A) (t : ToolbarState) (page : A)
  : ToolbarState * A :=
  if showClearConfirm t
  then (mkToolbar false (pendingTimeouts t), onClear page)
  else (mkToolbar true (S (pendingTimeouts t)), page).

(** A timer set by [handleClear] fires. *)
Definition timeout (t : ToolbarState) : ToolbarState :=
  match pendingTimeouts t with
  | O => t
  | S n => mkToolbar false n
  end.

(** What happens to the Clear button over time. *)
Inductive Event := Clicked | TimerFired.

Definition step {A : Type} (onClear : A -> A) (ev : Event) (st : ToolbarState * A)
  : ToolbarState * A :=
  match ev with
  | Clicked => handleClear onClear (fst st) (snd st)
  | TimerFired => (timeout (fst st), snd st)
  end.

Definition run {A : Type} (onClear : A -> A) (evs : list Event)
    (st : ToolbarState * A) : ToolbarState * A :=
  fold_left (fun st ev => step onClear ev st) evs st.

Definition clicks_in (evs : list Event) : nat :=
  List.length (filter (fun ev => match ev with Clicked => true | TimerFired => false end)
                 evs).

End Toolbar.

Module Gallery.

Record GalleryState := mkGallery {
  selectedImage : option string;
  deleteConfirm : option nat;
  pendingTimeouts : nat
}.

Definition initial : GalleryState := mkGallery None None 0.

(** [deleteConfirm === index]. *)
Definition confirms (g : GalleryState) (index : nat) : bool :=
  match deleteConfirm g with
  | Some i => Nat.eqb i index
  | None => false
  end.

(** [handleDelete], where [onDelete] acts on the rest of the page. *)
Definition handleDelete {A : Type} (onDelete : nat -> A -> A) (index : nat)
    (g : GalleryState) (page : A) : GalleryState * A :=
  if confirms g index
  then (mkGallery (selectedImage g) None (pendingTimeouts g), onDelete index page)
  else (mkGallery (selectedImage g) (Some index) (S (pendingTimeouts g)), page).

(** A timer set by [handleDelete] fires. *)
Definition timeout (g : GalleryState) : GalleryState :=
  match pendingTimeouts g with
  | O => g
  | S n => mkGallery (selectedImage g) None n
  end.

(** The link [handleDownload] builds and clicks. *)
Record Download := mkDownload { download : string; href : string }.

(** An array index, or a count, printed in decimal. *)
Definition decimal (n : nat) : string :=
  DecimalString.NilEmpty.string_of_uint (Nat.to_uint n).

Definition handleDownload (dataUrl : string) (index : nat) : Download :=
  mkDownload (String.append "atelier-artwork-"
                (String.append (decimal (index + 1)) ".png"))
             dataUrl.

End Gallery.

Module App.

(** What [JSON.parse] makes of a text that parses. *)
Inductive Json :=
  | JsonArtworks (l : list string)
  | JsonOther.

Class Platform := {
  JSON_stringify : list string -> string;
  (** [None]: [JSON.parse] throws a SyntaxError. *)
  JSON_parse : string -> option Json;
  (** The string [toDataURL] returns for a snapshot. *)
  dataURL_text : DataURL -> string
}.

(** What every browser's platform satisfies: an array of strings written
    as JSON reads back as itself, its text is never empty, and neither is
    a data URL. *)
Record platform_laws (P : Platform) : Prop := {
  parse_stringify : forall l, JSON_parse (JSON_stringify l) = Some (JsonArtworks l);
  stringify_nonempty : forall l, JSON_stringify l <> EmptyString;
  dataURL_nonempty : forall d, dataURL_text d <> EmptyString
}.

(** The children mounted under the active tab, with their state. *)
Inductive View :=
  | CreateView (canvas : State) (toolbar : Toolbar.ToolbarState)
  | GalleryView (gallery : Gallery.GalleryState).

Inductive Tab := tab_create | tab_gallery.

Record AppState := mkApp {
  savedArtworks : list string;
  isLoaded : bool;
  (** [localStorage.getItem('artworks')]. *)
  storage : option string;
  view : View
}.

Definition activeTab (a : AppState) : Tab :=
  match view a with
  | CreateView _ _ => tab_create
  | GalleryView _ => tab_gallery
  end.

Definition with_view (v : View) (a : AppState) : AppState :=
  mkApp (savedArtworks a) (isLoaded a) (storage a) v.

(** What a canvas needs from the page when it mounts. *)
Record MountEnv := mkEnv {
  canvas_rect : DOMRect;
  container_rect : option DOMRect;
  has2d : bool;
  randomness : nat -> number
}.

(** A canvas after its first commit and its effects: the setup for the
    initial 800 x 600, then the resize effect's measure and the setup it
    triggers. *)
Definition mounted (env : MountEnv) : State :=
  exec (updateSize (container_rect env))
    (exec setupCanvas
       (exec mount (initial (canvas_rect env) (has2d env) (randomness env)))).

(** The page as first rendered, before its own effect has run. *)
Definition first_render (env : MountEnv) (stored : option string) : AppState :=
  mkApp [] false stored (CreateView (mounted env) Toolbar.initial).

(** [setActiveTab]: leaving a tab unmounts its children and loses their
    state; entering one mounts fresh children. *)
Definition setActiveTab (tab : Tab) (env : MountEnv) (a : AppState) : AppState :=
  match tab, view a with
  | tab_create, GalleryView _ => with_view (CreateView (mounted env) Toolbar.initial) a
  | tab_gallery, CreateView _ _ => with_view (GalleryView Gallery.initial) a
  | _, _ => a
  end.

Inductive Loaded :=
  | LoadOk (a : AppState)
  | LoadThrew (a : AppState)
  (** The stored text parsed to something that is no array of strings;
      the page now holds it as its list, which this model cannot. *)
  | LoadForeign.

Section WithPlatform.
Context {P : Platform}.

(** The mount effect of [App]. *)
Definition loadArtworks (a : AppState) : Loaded :=
  let a1 := mkApp (savedArtworks a) true (storage a) (view a) in
  match storage a1 with
  | None => LoadOk a1
  | Some stored =>
      if String.eqb stored EmptyString then LoadOk a1 else
      match JSON_parse stored with
      | None => LoadThrew a1
      | Some (JsonArtworks l) => LoadOk (mkApp l true (storage a) (view a))
      | Some JsonOther => LoadForeign
      end
  end.

(** [canvasRef.current?.clear()]. *)
Definition handleClear (a : AppState) : AppState :=
  match view a with
  | CreateView canvas toolbar => with_view (CreateView (exec clear canvas) toolbar) a
  | GalleryView _ => a
  end.

(** [setSavedArtworks(l); localStorage.setItem('artworks', JSON.stringify(l))]. *)
Definition store (l : list string) (a : AppState) : AppState :=
  mkApp l (isLoaded a) (Some (JSON_stringify l)) (view a).

Definition handleSave (a : AppState) : AppState :=
  match view a with
  | CreateView canvas toolbar =>
      match result save canvas with
      | Returned (Some snapshot) =>
          let dataUrl := dataURL_text snapshot in
          if String.eqb dataUrl EmptyString then a
          else store (savedArtworks a ++ [dataUrl]) a
      | _ => a
      end
  | GalleryView _ => a
  end.

(** [l.filter((_, i) => keep(i))], counting from [i]. *)
Fixpoint filter_index (keep : nat -> bool) (i : nat) (l : list string) : list string :=
  match l with
  | [] => []
  | x :: rest =>
      if keep i then x :: filter_index keep (S i) rest
      else filter_index keep (S i) rest
  end.

Definition handleDeleteArtwork (index : nat) (a : AppState) : AppState :=
  store (filter_index (fun i => negb (Nat.eqb i index)) 0 (savedArtworks a)) a.

(** What the user can do on the page, and the timers that can fire. *)
Inductive Click :=
  | clickSave
  | clickClear
  | clearTimeout
  | clickDelete (index : nat)
  | deleteTimeout
  | clickTab (tab : Tab) (env : MountEnv)
  | onCanvas (props : CanvasProps) (ev : DomEvent).

Definition click (c : Click) (a : AppState) : AppState :=
  match c, view a with
  | clickSave, CreateView _ _ => handleSave a
  | clickClear, CreateView canvas toolbar =>
      let (toolbar', a') := Toolbar.handleClear handleClear toolbar a in
      match view a' with
      | CreateView canvas' _ => with_view (CreateView canvas' toolbar') a'
      | GalleryView _ => a'
      end
  | clearTimeout, CreateView canvas toolbar =>
      with_view (CreateView canvas (Toolbar.timeout toolbar)) a
  | clickDelete index, GalleryView gallery =>
      let (gallery', a') := Gallery.handleDelete handleDeleteArtwork index gallery a in
      with_view (GalleryView gallery') a'
  | deleteTimeout, GalleryView gallery =>
      with_view (GalleryView (Gallery.timeout gallery)) a
  | clickTab tab env, _ => setActiveTab tab env a
  | onCanvas props ev, CreateView canvas toolbar =>
      with_view (CreateView (exec (dispatch props ev) canvas) toolbar) a
  | _, _ => a
  end.

Definition clicks (cs : list Click) (a : AppState) : AppState :=
  fold_left (fun a c => click c a) cs a.

(** What is stored reads back as the list on the page. *)
Definition in_sync (a : AppState) : Prop :=
  match storage a with
  | None => savedArtworks a = []
  | Some stored =>
      if String.eqb stored EmptyString then savedArtworks a = []
      else JSON_parse stored = Some (JsonArtworks (savedArtworks a))
  end.

End WithPlatform.

(** A platform to run examples on: a list of strings is written as an
    opening bracket, then each string with a mark before every character
    and a stop after the last. *)
Definition mark : Ascii.ascii := Ascii.ascii_of_nat 120.
Definition stop : Ascii.ascii := Ascii.ascii_of_nat 59.
Definition bracket : Ascii.ascii := Ascii.ascii_of_nat 91.

Fixpoint write_string (s : string) (rest : string) : string :=
  match s with
  | EmptyString => String stop rest
  | String c s' => String mark (String c (write_string s' rest))
  end.

Fixpoint write_list (l : list string) : string :=
  match l with
  | [] => EmptyString
  | s :: l' => write_string s (write_list l')
  end.

(** Reads the strings of [t]; [cur] holds, reversed, the characters of
    the string being read. *)
Fixpoint read_list (t : string) (cur : list Ascii.ascii) : option (list string) :=
  match t with
  | EmptyString => match cur with [] => Some [] | _ => None end
  | String c t' =>
      if Ascii.eqb c stop
      then option_map (cons (string_of_list_ascii (rev cur))) (read_list t' [])
      else if Ascii.eqb c mark
      then match t' with
           | String d t'' => read_list t'' (d :: cur)
           | EmptyString => None
           end
      else None
  end.

Definition example_platform : Platform :=
  Build_Platform
    (fun l => String bracket (write_list l))
    (fun t =>
       match t with
       | String c t' =>
           if Ascii.eqb c bracket
           then option_map JsonArtworks (read_list t' [])
           else None
       | EmptyString => None
       end)
    (fun _ => "data:image/png;base64,"%string).

Definition example_env : MountEnv := mkEnv rect0 (Some rect0) true (fun _ => 0).

(** 1 while the gallery shows a delete confirmation, 0 otherwise. *)
Definition gallery_armed (a : AppState) : nat :=
  match view a with
  | GalleryView g =>
      match Gallery.deleteConfirm g with Some _ => 1 | None => 0 end
  | CreateView _ _ => 0
  end.

Definition delete_clicks_in (cs : list Click) : nat :=
  List.length (filter (fun c => match c with clickDelete _ => true | _ => false end) cs).

End App.

(** ** Doubles

    A JavaScript number is a binary64 double, and an arithmetic operation
    returns its exact result rounded to the nearest double.  [Rounding rnd]
    says what the bounds proved below need of the rounding: it is
    monotone, and it leaves alone every number [z / 2] with [z] an integer
    of at most 53 bits, all of which are doubles.  Rounding to the nearest
    double is such a function.  The exact arithmetic of the model above is
    the case where [rnd] rounds nothing. *)
Record Rounding (rnd : number -> number) : Prop := {
  rnd_monotone : forall x y, x <= y -> rnd x <= rnd y;
  rnd_halves : forall z : Z, (Z.abs z <= 2 ^ 53)%Z -> rnd (IZR z / 2) = IZR z / 2
}.

(** The sizes [drawSplatter] and [drawDrip] compute from a draw [u] of
    [Math.random()], every product and sum rounded by [rnd]. *)
Module Rounded.
Section WithRounding.
Variable rnd : number -> number.

Definition mul (v w : number) : number := rnd (v * w).
Definition add (v w : number) : number := rnd (v + w).

(** [Math.floor(Math.random() * 12) + 8] *)
Definition numDroplets (u : number) : number := add (Math_floor (mul u 12)) 8.

(** [Math.random() * brushSize * 3] *)
Definition distance (brushSize u : number) : number := mul (mul u brushSize) 3.

(** [Math.random() * brushSize * 0.5 + 2] *)
Definition dropletSize (brushSize u : number) : number :=
  add (mul (mul u brushSize) 0.5) 2.

(** [Math.random() * 80 + 40] *)
Definition dripLength (u : number) : number := add (mul u 80) 40.

(** [Math.random() * brushSize * 0.5 + brushSize * 0.5] *)
Definition dripWidth (brushSize u : number) : number :=
  add (mul (mul u brushSize) 0.5) (mul brushSize 0.5).

End WithRounding.
End Rounded.

(** The largest double below 1, so the largest value of [Math.random()]. *)
Definition largest_draw : number := 1 - / 2 ^ 53.

(** No rounding: exact arithmetic. *)
Definition exact (v : number) : number := v.

(** A rounding to run examples on: down to the next multiple of 1/1024. *)
Definition to_1024ths (v : number) : number := IZR (Zfloor (v * 1024)) / 1024.

(** The same sizes on binary64 floats, rounded as the hardware does. *)
Module Binary64.
Import PrimFloat.
Local Open Scope float_scope.

(** The largest double below 1, which is [1 - 2^-53]: the largest value
    [Math.random()] can return. *)
Definition below_one : float := 0x1.fffffffffffffp-1.

(** [0 <= u && u < 1] *)
Definition in_unit_interval (u : float) : bool := (0 <=? u) && (u <? 1).

(** The real number a finite double stands for. *)
Definition value (v : float) : number :=
  match FloatOps.Prim2SF v with
  | SpecFloat.S754_finite sign m e =>
      ((if sign then - IZR (Zpos m) else IZR (Zpos m)) * powerRZ 2 e)%R
  | _ => 0%R
  end.

(** [Math.random() * 12], whose floor counts the droplets. *)
Definition twelvefold (u : float) : float := u * 12.

Definition distance (brushSize u : float) : float := u * brushSize * 3.
Definition dropletSize (brushSize u : float) : float := u * brushSize * 0.5 + 2.
Definition dripLength (u : float) : float := u * 80 + 40.
Definition dripWidth (brushSize u : float) : float :=
  u * brushSize * 0.5 + brushSize * 0.5.

End Binary64.

(** * Properties *)

(** ** Reduction of computations *)

Ltac run :=
  cbv beta iota zeta delta
    [exec result bind ret read modify throw fst snd
     clear save drawBrushStroke drawSplatter splatter_droplet drawDrip handleStart handleMove handleEnd
     dispatch getCoordinates setupCanvas setCanvasSize updateSize mount configure perform
     preventDefault Math_random getContext2d initial fresh_element
     set_canvas_width set_canvas_height set_style_width set_style_height reset_surface
     on_context ctx_scale ctx_set_lineCap ctx_set_lineJoin ctx_set_fillStyle
     ctx_set_strokeStyle ctx_set_lineWidth set_path ctx_beginPath ctx_add ctx_moveTo
     ctx_lineTo ctx_quadraticCurveTo ctx_arc ctx_ellipse paint ctx_fillRect ctx_fill
     ctx_stroke with_elem with_contextRef with_canvasRef with_isDrawing with_lastPoint
     with_canvasSize with_random_calls with_prevented with_context with_bitmap
     elem canvasRef contextRef isDrawing lastPoint canvasSize random_source random_calls
     prevented canvas_width canvas_height style_width style_height boundingRect
     supports2d context bitmap transform lineCap lineJoin fillStyle strokeStyle
     lineWidth path is_tool negb toDataURL default_context width height];
  cbn [app].

Ltac real_eq := unfold number; first [ring | field | nra].

Ltac open_state s :=
  let cw := fresh "cw" in let ch := fresh "ch" in
  let sw := fresh "sw" in let sh := fresh "sh" in
  let rect := fresh "rect" in let has2d := fresh "has2d" in
  let tr := fresh "tr" in let cap := fresh "cap" in let join := fresh "join" in
  let fs := fresh "fs" in let ss := fresh "ss" in let lw := fresh "lw" in
  let pth := fresh "pth" in let bm := fresh "bm" in
  let cref := fresh "cref" in let xref := fresh "xref" in
  let drawing := fresh "drawing" in let last := fresh "last" in
  let size := fresh "size" in let rnd := fresh "rnd" in
  let calls := fresh "calls" in let prev := fresh "prev" in
  destruct s as [[cw ch sw sh rect has2d [tr cap join fs ss lw pth] bm]
                   cref xref drawing last size rnd calls prev].

(** ** The renderers *)

Lemma pen_repaint c' paints calls s : pen (repaint c' paints calls s) = pen_of c'.
Proof. reflexivity. Qed.

Lemma drew_ret s : drew (ret tt) s [] 0.
Proof.
  exists (context (elem s)). split; [reflexivity|].
  unfold ret, repaint. rewrite app_nil_r, Nat.add_0_r. now open_state s.
Qed.

(** Sequencing two renderers appends their paints and adds their draws. *)
Lemma drew_bind m k s p1 n1 p2 n2 :
  drew m s p1 n1 ->
  (forall c', pen_of c' = pen s -> drew k (repaint c' p1 n1 s) p2 n2) ->
  drew (m ;; k) s (p1 ++ p2) (n1 + n2).
Proof.
  intros (c1 & Hp1 & E1) Hk.
  destruct (Hk c1 Hp1) as (c2 & Hp2 & E2).
  exists c2. split.
  - rewrite Hp2, pen_repaint. exact Hp1.
  - unfold bind. rewrite E1, E2. unfold repaint.
    cbn [elem canvas_width canvas_height style_width style_height boundingRect
         supports2d bitmap canvasRef contextRef isDrawing lastPoint canvasSize
         random_source random_calls prevented].
    now rewrite app_assoc, Nat.add_assoc.
Qed.

Lemma drawBrushStroke_drew s props a b :
  contextRef s = RefElem ->
  drew (drawBrushStroke props a b) s [brush_segment (pen s) props a b] 0.
Proof.
  intros H. open_state s. cbn [contextRef] in H. subst.
  eexists. split; [|run; unfold repaint, brush_segment, pen, pen_of; run;
                    rewrite Nat.add_0_r; reflexivity].
  reflexivity.
Qed.

Lemma splatter_droplet_drew s props x y :
  drew (splatter_droplet props x y) s
    [droplet_paint (pen s) props x y
       (random_source s (random_calls s))
       (random_source s (random_calls s + 1)%nat)
       (random_source s (random_calls s + 2)%nat)] 3.
Proof.
  open_state s. eexists. split; [|run; unfold repaint, droplet_paint, droplet_center,
    droplet_size, droplet_distance, droplet_angle, pen, pen_of; run;
    replace (calls + 1)%nat with (S calls) by lia;
    replace (calls + 2)%nat with (S (S calls)) by lia;
    replace (calls + 3)%nat with (S (S (S calls))) by lia; reflexivity].
  reflexivity.
Qed.

Lemma splatter_loop_drew props x y n :
  forall s,
    drew (repeat_body n (splatter_droplet props x y)) s
      (droplets (pen s) props x y (random_source s) (random_calls s) n) (3 * n).
Proof.
  induction n as [|n IH]; intros s.
  - apply drew_ret.
  - cbn [repeat_body droplets].
    replace (3 * S n)%nat with (3 + 3 * n)%nat by lia.
    apply (drew_bind _ _ s [_] 3 _ (3 * n)).
    + apply splatter_droplet_drew.
    + intros c' Hc'. specialize (IH (repaint c' [droplet_paint (pen s) props x y
        (random_source s (random_calls s)) (random_source s (random_calls s + 1)%nat)
        (random_source s (random_calls s + 2)%nat)] 3 s)).
      rewrite pen_repaint, Hc' in IH. exact IH.
Qed.

Lemma Math_random_then (k : number -> M unit) s paints calls :
  (forall c', pen_of c' = pen s ->
     drew (k (random_source s (random_calls s))) (repaint c' [] 1 s) paints calls) ->
  drew (r <- Math_random ;; k r) s paints (1 + calls).
Proof.
  intros Hk.
  destruct (Hk (context (elem s)) eq_refl) as (c2 & Hp2 & E2).
  exists c2. split; [exact Hp2|].
  unfold bind, Math_random.
  replace (with_random_calls (S (random_calls s)) s)
    with (repaint (context (elem s)) [] 1 s)
    by (unfold repaint; rewrite app_nil_r, Nat.add_1_r; now open_state s).
  rewrite E2. unfold repaint.
  cbn [elem canvas_width canvas_height style_width style_height boundingRect
       supports2d bitmap canvasRef contextRef isDrawing lastPoint canvasSize
       random_source random_calls prevented].
  now rewrite app_nil_r, Nat.add_assoc.
Qed.

Lemma drawSplatter_drew s props x y :
  contextRef s = RefElem ->
  drew (drawSplatter props x y) s
    (splatter_cluster (pen s) props x y (random_source s) (random_calls s))
    (1 + 3 * iterations (numDroplets (random_source s (random_calls s)))).
Proof.
  intros H.
  assert (D : drew (r <- Math_random ;;
                    for_loop (Math_floor (r * 12) + 8) (splatter_droplet props x y)) s
                (splatter_cluster (pen s) props x y (random_source s) (random_calls s))
                (1 + 3 * iterations (numDroplets (random_source s (random_calls s))))).
  { apply Math_random_then. intros c' Hc'. unfold for_loop, splatter_cluster.
    pose proof (splatter_loop_drew props x y
                  (iterations (numDroplets (random_source s (random_calls s))))
                  (repaint c' [] 1 s)) as L.
    rewrite pen_repaint, Hc' in L. exact L. }
  destruct D as (c' & Hp & E). exists c'. split; [exact Hp|].
  rewrite <- E. unfold drawSplatter, bind at 1, read. rewrite H. reflexivity.
Qed.

Lemma drawDrip_drew s props x y :
  contextRef s = RefElem ->
  drew (drawDrip props x y) s
    (drip_paints (pen s) props x y
       (random_source s (random_calls s)) (random_source s (random_calls s + 1)%nat))
    2.
Proof.
  intros H. open_state s. cbn [contextRef] in H. subst.
  eexists. split; [|run; unfold repaint, drip_paints, drip_blob, drip_teardrop,
    dripWidth, dripLength, pen, pen_of; run;
    replace (calls + 1)%nat with (S calls) by lia;
    replace (calls + 2)%nat with (S (S calls)) by lia;
    rewrite <- app_assoc; reflexivity].
  reflexivity.
Qed.

(** ** The input normalizer *)

Lemma getCoordinates_normalized e s :
  getCoordinates e s = (normalized (canvasRef s) (boundingRect (elem s)) e, s).
Proof.
  unfold getCoordinates, bind, read, normalized.
  destruct (canvasRef s); [reflexivity|].
  destruct e as [cx cy | [| t ts]]; reflexivity.
Qed.

Lemma normalized_well_formed canvas rect e :
  well_formed e -> exists p, normalized canvas rect e = Returned p.
Proof.
  destruct canvas; [eexists; reflexivity|].
  destruct e as [cx cy | [| t ts]]; cbn; intros H;
    [eexists; reflexivity | contradiction | eexists; reflexivity].
Qed.

Lemma result_getCoordinates e s :
  result (getCoordinates e) s = normalized (canvasRef s) (boundingRect (elem s)) e.
Proof. unfold result. now rewrite getCoordinates_normalized. Qed.

(** ** The handlers, in terms of the renderers *)

Lemma handleStart_spec s props e p :
  normalized (canvasRef s) (boundingRect (elem s)) e = Returned p ->
  handleStart props e s =
  match tool props with
  | splatter => drawSplatter props (px p) (py p) (started p s)
  | drip => drawDrip props (px p) (py p) (started p s)
  | brush => (Returned tt, started p s)
  end.
Proof.
  intros H. unfold handleStart.
  unfold bind at 1. unfold preventDefault, modify at 1.
  unfold bind at 1. unfold modify at 1.
  unfold bind at 1. rewrite getCoordinates_normalized.
  replace (canvasRef _) with (canvasRef s) by now open_state s.
  replace (boundingRect _) with (boundingRect (elem s)) by now open_state s.
  rewrite H. unfold bind at 1. unfold modify at 1.
  replace (with_lastPoint _ _) with (started p s) by now open_state s.
  destruct (tool props); reflexivity.
Qed.

Lemma handleMove_idle s props e :
  isDrawing s = false -> handleMove props e s = (Returned tt, moving s).
Proof.
  intros H. open_state s. cbn [isDrawing] in H. subst. reflexivity.
Qed.

Lemma handleMove_drawing s props e p :
  isDrawing s = true ->
  normalized (canvasRef s) (boundingRect (elem s)) e = Returned p ->
  handleMove props e s =
  (match tool props, lastPoint s with
   | brush, Some q => drawBrushStroke props q p
   | brush, None => ret tt
   | splatter, _ =>
       r <- Math_random ;;
       if gt r 0.7 then drawSplatter props (px p) (py p) else ret tt
   | drip, _ =>
       r <- Math_random ;;
       if gt r 0.9 then drawDrip props (px p) (py p) else ret tt
   end ;;
   modify (with_lastPoint (Some p))) (moving s).
Proof.
  intros Hd H. unfold handleMove.
  unfold bind at 1. unfold preventDefault, modify at 1. fold (moving s).
  unfold bind at 1. unfold read at 1.
  replace (isDrawing (moving s)) with true by (now open_state s).
  cbv beta iota delta [negb].
  unfold bind at 1. rewrite getCoordinates_normalized.
  replace (canvasRef (moving s)) with (canvasRef s) by now open_state s.
  replace (boundingRect (elem (moving s))) with (boundingRect (elem s))
    by now open_state s.
  rewrite H. unfold bind at 1. unfold read at 1.
  replace (lastPoint (moving s)) with (lastPoint s) by now open_state s.
  generalize (moving s) as s1. intros s1.
  destruct (tool props), (lastPoint s) as [q|];
    cbv beta iota delta [is_tool]; try reflexivity;
    cbv beta iota delta [bind Math_random ret];
    repeat match goal with
           | |- context [gt ?a ?b] => destruct (gt a b)
           end; reflexivity.
Qed.

Lemma drew_unready (m : M unit) s :
  m s = (Returned tt, s) -> drew m s [] 0.
Proof.
  intros E. destruct (drew_ret s) as (c' & Hp & E'). exists c'. split; [exact Hp|].
  rewrite E. exact E'.
Qed.

Lemma drew_then_modify (m : M unit) f s paints calls :
  drew m s paints calls ->
  exists c', pen_of c' = pen s /\
             (m ;; modify f) s = (Returned tt, f (repaint c' paints calls s)).
Proof.
  intros (c' & Hp & E). exists c'. split; [exact Hp|].
  unfold bind. rewrite E. reflexivity.
Qed.

Lemma drew_eq (m : M unit) s p1 n1 p2 n2 :
  drew m s p1 n1 -> p1 = p2 -> n1 = n2 -> drew m s p2 n2.
Proof. intros D -> ->. exact D. Qed.

(** ** The unready surface *)

Lemma clear_unready s :
  contextRef s = RefNull -> clear s = (Returned tt, s).
Proof. intros H. unfold clear, bind, read. rewrite H. reflexivity. Qed.

Lemma drawBrushStroke_unready s props a b :
  contextRef s = RefNull -> drawBrushStroke props a b s = (Returned tt, s).
Proof. intros H. unfold drawBrushStroke, bind, read. rewrite H. reflexivity. Qed.

Lemma drawSplatter_unready s props x y :
  contextRef s = RefNull -> drawSplatter props x y s = (Returned tt, s).
Proof. intros H. unfold drawSplatter, bind, read. rewrite H. reflexivity. Qed.

Lemma drawDrip_unready s props x y :
  contextRef s = RefNull -> drawDrip props x y s = (Returned tt, s).
Proof. intros H. unfold drawDrip, bind, read. rewrite H. reflexivity. Qed.

Lemma save_spec s :
  save s =
  (Returned (match canvasRef s with
             | RefNull => None
             | RefElem => Some (toDataURL (elem s))
             end), s).
Proof. unfold save, bind, read. destruct (canvasRef s); reflexivity. Qed.

(** C8, as stated, at a canvas that is mounted but whose setup effect has
    not run: no rendering context yet, and [save()] does not return
    null, it returns the snapshot of the untouched default bitmap. *)
Lemma save_before_configure_not_null :
  let s := exec mount (initial rect0 true (fun _ => 0)) in
  contextRef s = RefNull /\
  result save s = Returned (Some (mkDataURL "image/png" 300 150 [])) /\
  result save s <> Returned None.
Proof.
  cbv zeta. split; [reflexivity|]. split; [reflexivity|].
  unfold result. rewrite save_spec. cbn [fst]. run. discriminate.
Qed.

(** C8 (amended): without a rendering context [clear()] and the three
    draw operations return normally and leave the whole state unchanged
    (no random draw is consumed either); [save()] never throws and never
    changes the state, and it returns null exactly when no canvas element
    is mounted, whether or not the surface was configured. *)
Theorem unready_surface_degrades s props a b x y :
  (contextRef s = RefNull ->
   clear s = (Returned tt, s) /\
   drawBrushStroke props a b s = (Returned tt, s) /\
   drawSplatter props x y s = (Returned tt, s) /\
   drawDrip props x y s = (Returned tt, s)) /\
  exec save s = s /\
  (result save s = Returned None <-> canvasRef s = RefNull) /\
  (canvasRef s = RefElem -> result save s = Returned (Some (toDataURL (elem s)))).
Proof.
  split.
  { intros H.
    split; [now apply clear_unready|].
    split; [now apply drawBrushStroke_unready|].
    split; [now apply drawSplatter_unready | now apply drawDrip_unready]. }
  unfold exec, result. rewrite save_spec. cbn [fst snd].
  split; [reflexivity|]. split.
  - destruct (canvasRef s); split; intros E; try reflexivity; discriminate.
  - intros E. rewrite E. reflexivity.
Qed.

Lemma unready_surface_degrades_witness :
  let s := exec mount (initial rect0 true (fun _ => 0)) in
  let props := mkProps "#e63946" brush 12 in
  (clear s = (Returned tt, s) /\
   drawBrushStroke props (mkPoint 10 10) (mkPoint 50 10) s = (Returned tt, s) /\
   drawSplatter props 100 100 s = (Returned tt, s) /\
   drawDrip props 100 100 s = (Returned tt, s)) /\
  exec save s = s /\
  result save s = Returned (Some (toDataURL (elem s))).
Proof.
  intros s props.
  destruct (unready_surface_degrades s props (mkPoint 10 10) (mkPoint 50 10) 100 100)
    as (Hdraw & Hsame & _ & Hsave).
  split; [exact (Hdraw eq_refl)|]. split; [exact Hsame | exact (Hsave eq_refl)].
Defined.

(** ** Effects of the handlers *)

Lemma threshold_then_render (m : M unit) (threshold : number) s paints calls :
  (forall c', pen_of c' = pen s -> drew m (repaint c' [] 1 s) paints calls) ->
  drew (r <- Math_random ;; if gt r threshold then m else ret tt) s
    (if gt (random_source s (random_calls s)) threshold then paints else [])
    (1 + if gt (random_source s (random_calls s)) threshold then calls else 0).
Proof.
  intros Hm. apply Math_random_then. intros c' Hc'.
  destruct (gt _ _); [now apply Hm | apply drew_ret].
Qed.

Lemma move_render_drew s props p :
  drew (match tool props, lastPoint s with
        | brush, Some q => drawBrushStroke props q p
        | brush, None => ret tt
        | splatter, _ =>
            r <- Math_random ;;
            if gt r 0.7 then drawSplatter props (px p) (py p) else ret tt
        | drip, _ =>
            r <- Math_random ;;
            if gt r 0.9 then drawDrip props (px p) (py p) else ret tt
        end) (moving s) (move_paints s props p) (move_calls s props).
Proof.
  unfold move_paints, move_calls.
  destruct (contextRef s) eqn:Hx, (tool props), (lastPoint s) as [q|];
    try apply drew_ret;
    try (apply drew_unready; apply drawBrushStroke_unready; exact Hx);
    try (apply (drawBrushStroke_drew (moving s)); exact Hx).
  all: eapply drew_eq; [apply threshold_then_render; intros c' Hc' | |].
  all: try (apply drew_unready;
            first [apply drawSplatter_unready | apply drawDrip_unready]; exact Hx).
  all: try (destruct (gt _ _); reflexivity).
  all: try (eapply drew_eq;
            [first [apply drawSplatter_drew | apply drawDrip_drew]; exact Hx
            | rewrite pen_repaint, Hc'; reflexivity | reflexivity]).
  all: try (destruct (gt _ _); reflexivity).
  all: eapply drew_eq; [apply drawDrip_drew; exact Hx | | reflexivity].
  all: rewrite pen_repaint, Hc';
    cbn [repaint random_calls random_source moving with_prevented];
    rewrite <- Nat.add_assoc; reflexivity.
Qed.

Lemma handleMove_effect s props e p :
  isDrawing s = true ->
  normalized (canvasRef s) (boundingRect (elem s)) e = Returned p ->
  exists c', pen_of c' = pen s /\
    handleMove props e s =
    (Returned tt,
     with_lastPoint (Some p)
       (repaint c' (move_paints s props p) (move_calls s props) (moving s))).
Proof.
  intros Hd H. rewrite (handleMove_drawing s props e p Hd H).
  exact (drew_then_modify _ _ _ _ _ (move_render_drew s props p)).
Qed.

Lemma start_render_drew s props p :
  drew (match tool props with
        | splatter => drawSplatter props (px p) (py p)
        | drip => drawDrip props (px p) (py p)
        | brush => ret tt
        end) (started p s) (start_paints s props p) (start_calls s props).
Proof.
  unfold start_paints, start_calls.
  destruct (contextRef s) eqn:Hx, (tool props);
    try apply drew_ret;
    try (apply drew_unready;
         first [apply drawSplatter_unready | apply drawDrip_unready]; exact Hx).
  - apply (drawSplatter_drew (started p s)). exact Hx.
  - apply (drawDrip_drew (started p s)). exact Hx.
Qed.

Lemma handleStart_effect s props e p :
  normalized (canvasRef s) (boundingRect (elem s)) e = Returned p ->
  exists c', pen_of c' = pen s /\
    handleStart props e s =
    (Returned tt,
     repaint c' (start_paints s props p) (start_calls s props) (started p s)).
Proof.
  intros H. rewrite (handleStart_spec s props e p H).
  destruct (start_render_drew s props p) as (c' & Hp & E).
  exists c'. split; [exact Hp|].
  destruct (tool props); exact E.
Qed.

(** ** Configuring the surface *)

Lemma setupCanvas_ready s w h :
  canvasRef s = RefElem ->
  supports2d (elem s) = true ->
  canvasSize s = mkSize w h ->
  setupCanvas s =
  (Returned tt,
   mkState
     (mkCanvas (w * 2) (h * 2) (Some w) (Some h) (boundingRect (elem s)) true
        (mkContext (mkTransform (1 * 2) (1 * 2)) cap_round join_round background
           "#000000" 1 [])
        [PaintRect (mkTransform (1 * 2) (1 * 2)) background 0 0 w h])
     RefElem RefElem (isDrawing s) (lastPoint s) (mkSize w h)
     (random_source s) (random_calls s) (prevented s)).
Proof.
  open_state s. cbn [canvasRef supports2d elem canvasSize]. intros -> -> ->.
  reflexivity.
Qed.

(** C9: after the setup effect has run on a mounted canvas for the
    logical size (w, h), after every [configure(w, h)] and after every
    resize that measures a container whose sizes round down to (w, h),
    the backing store measures (w * 2, h * 2), the context's transformation is the
    scale by 2 whatever it was before, and the bitmap holds exactly one
    paint operation, whatever it held before: the background colour over
    the logical rectangle from (0, 0) to (w, h), which in physical pixels
    is the whole backing store. *)
Theorem configure_repaints s w h :
  canvasRef s = RefElem ->
  supports2d (elem s) = true ->
  forall s',
    (canvasSize s = mkSize w h /\ s' = exec setupCanvas s) \/
    s' = exec (configure w h) s \/
    (exists rect, w = Math_floor (rect_width rect) /\
                  h = Math_floor (rect_height rect) /\
                  s' = exec (updateSize (Some rect)) s) ->
    canvas_width (elem s') = w * 2 /\
    canvas_height (elem s') = h * 2 /\
    transform (context (elem s')) = mkTransform 2 2 /\
    contextRef s' = RefElem /\
    bitmap (elem s') = [PaintRect (mkTransform 2 2) background 0 0 w h] /\
    map physical_extent (bitmap (elem s')) =
      [Some (0, 0, canvas_width (elem s'), canvas_height (elem s'))].
Proof.
  intros Hc Hs s' Hs'.
  assert (E : s' = snd (setupCanvas (with_canvasSize (mkSize w h) s))).
  { destruct Hs' as [[Hsz ->] | [-> | (rect & -> & -> & ->)]].
    - unfold exec. f_equal. f_equal. open_state s.
      cbn [canvasSize] in Hsz. subst. reflexivity.
    - reflexivity.
    - reflexivity. }
  clear Hs'.
  rewrite (setupCanvas_ready _ w h) in E by (open_state s; assumption || reflexivity).
  subst s'. cbn [snd elem canvas_width canvas_height context transform contextRef
                 bitmap map physical_extent scaleX scaleY].
  replace (1 * 2) with 2 by lra.
  repeat split.
  replace (2 * 0) with 0 by lra.
  replace (2 * (0 + w)) with (w * 2) by lra.
  replace (2 * (0 + h)) with (h * 2) by lra.
  reflexivity.
Qed.

Lemma configure_repaints_witness :
  let s := exec mount (initial rect0 true (fun _ => 0)) in
  let s' := exec setupCanvas s in
  canvas_width (elem s') = 800 * 2 /\
  canvas_height (elem s') = 600 * 2 /\
  transform (context (elem s')) = mkTransform 2 2 /\
  contextRef s' = RefElem /\
  bitmap (elem s') = [PaintRect (mkTransform 2 2) background 0 0 800 600] /\
  map physical_extent (bitmap (elem s')) =
    [Some (0, 0, canvas_width (elem s'), canvas_height (elem s'))].
Proof.
  exact (configure_repaints (exec mount (initial rect0 true (fun _ => 0))) 800 600
           eq_refl eq_refl _ (or_introl (conj eq_refl eq_refl))).
Defined.

(** ** Totality of the input normalizer *)

(** C10: [getCoordinates] never changes the state; while [canvasRef] is
    null it returns the origin for every event, a malformed one included,
    and throws nothing; on every well-formed event it returns a point in
    every state; and a move processed during a session while [canvasRef]
    is null returns normally with the origin as the new [lastPoint]. *)
Theorem getCoordinates_total s props e :
  canvasRef s = RefNull ->
  getCoordinates e s = (Returned (mkPoint 0 0), s) /\
  (forall s0 e0, well_formed e0 ->
     exists p, getCoordinates e0 s0 = (Returned p, s0)) /\
  (isDrawing s = true ->
     result (handleMove props e) s = Returned tt /\
     lastPoint (exec (handleMove props e) s) = Some (mkPoint 0 0)).
Proof.
  intros Hc. split; [|split].
  - rewrite getCoordinates_normalized, Hc. reflexivity.
  - intros s0 e0 Hwf. rewrite getCoordinates_normalized.
    destruct (normalized_well_formed (canvasRef s0) (boundingRect (elem s0)) e0 Hwf)
      as [p ->].
    now exists p.
  - intros Hd.
    destruct (handleMove_effect s props e (mkPoint 0 0) Hd) as (c' & _ & E).
    { rewrite Hc. reflexivity. }
    unfold result, exec. rewrite E. split; reflexivity.
Qed.

Lemma getCoordinates_total_witness :
  let props := mkProps "#e63946" brush 12 in
  let s := exec (handleStart props (MouseEvent 10 10)) (initial rect0 true (fun _ => 0)) in
  getCoordinates (TouchEvent []) s = (Returned (mkPoint 0 0), s) /\
  (exists p, getCoordinates (MouseEvent 50 10) s = (Returned p, s)) /\
  result (handleMove props (TouchEvent [])) s = Returned tt /\
  lastPoint (exec (handleMove props (TouchEvent [])) s) = Some (mkPoint 0 0).
Proof.
  intros props s.
  destruct (getCoordinates_total s props (TouchEvent []) eq_refl) as (A & B & C).
  split; [exact A|]. split; [exact (B s (MouseEvent 50 10) I)|]. exact (C eq_refl).
Defined.

(** ** The session invariant *)

Lemma handleEnd_spec s :
  handleEnd s = (Returned tt, with_lastPoint None (with_isDrawing false s)).
Proof. reflexivity. Qed.

Lemma renderer_keeps_session c' paints calls s :
  isDrawing (repaint c' paints calls s) = isDrawing s /\
  lastPoint (repaint c' paints calls s) = lastPoint s.
Proof. split; reflexivity. Qed.

Lemma handleStart_activates s props e :
  isDrawing (exec (handleStart props e) s) = true.
Proof.
  destruct (normalized (canvasRef s) (boundingRect (elem s)) e) as [p|err] eqn:H.
  - destruct (handleStart_effect s props e p H) as (c' & _ & E).
    unfold exec. rewrite E. reflexivity.
  - unfold exec, handleStart.
    unfold bind at 1. unfold preventDefault, modify at 1.
    unfold bind at 1. unfold modify at 1.
    unfold bind at 1. rewrite getCoordinates_normalized.
    replace (canvasRef _) with (canvasRef s) by now open_state s.
    replace (boundingRect _) with (boundingRect (elem s)) by now open_state s.
    rewrite H. reflexivity.
Qed.

Lemma handleMove_keeps_invariant s props e :
  idle_has_no_point s -> idle_has_no_point (exec (handleMove props e) s).
Proof.
  intros Inv. destruct (isDrawing s) eqn:Hd.
  - destruct (normalized (canvasRef s) (boundingRect (elem s)) e) as [p|err] eqn:H.
    + destruct (handleMove_effect s props e p Hd H) as (c' & _ & E).
      unfold exec. rewrite E. intros F. cbn in F. congruence.
    + unfold exec, handleMove.
      unfold bind at 1. unfold preventDefault, modify at 1. fold (moving s).
      unfold bind at 1. unfold read at 1.
      replace (isDrawing (moving s)) with true by (now open_state s).
      cbv beta iota delta [negb].
      unfold bind at 1. rewrite getCoordinates_normalized.
      replace (canvasRef (moving s)) with (canvasRef s) by now open_state s.
      replace (boundingRect (elem (moving s))) with (boundingRect (elem s))
        by now open_state s.
      rewrite H. intros F. cbn in F. congruence.
  - unfold exec. rewrite (handleMove_idle s props e Hd). intros _.
    cbn. exact (Inv Hd).
Qed.

Lemma handleStart_records s props e p :
  normalized (canvasRef s) (boundingRect (elem s)) e = Returned p ->
  result (handleStart props e) s = Returned tt /\
  isDrawing (exec (handleStart props e) s) = true /\
  lastPoint (exec (handleStart props e) s) = Some p.
Proof.
  intros H. destruct (handleStart_effect s props e p H) as (c' & _ & E).
  unfold result, exec. rewrite E. repeat split.
Qed.

Lemma setupCanvas_keeps_session s :
  isDrawing (exec setupCanvas s) = isDrawing s /\
  lastPoint (exec setupCanvas s) = lastPoint s.
Proof. open_state s. destruct cref, has2d; split; reflexivity. Qed.

Lemma perform_keeps_invariant a s :
  idle_has_no_point s -> idle_has_no_point (perform a s).
Proof.
  intros Inv. destruct a as [| | container | props ev | |]; unfold perform.
  - exact Inv.
  - unfold idle_has_no_point. destruct (setupCanvas_keeps_session s) as [-> ->].
    exact Inv.
  - destruct container as [rect|]; [|exact Inv].
    unfold updateSize, exec, bind, setCanvasSize, modify.
    fold (exec setupCanvas (with_canvasSize
            (mkSize (Math_floor (rect_width rect)) (Math_floor (rect_height rect))) s)).
    unfold idle_has_no_point.
    destruct (setupCanvas_keeps_session (with_canvasSize
            (mkSize (Math_floor (rect_width rect)) (Math_floor (rect_height rect))) s))
      as [-> ->].
    exact Inv.
  - destruct ev as [e | e | | | e | e |]; unfold dispatch;
      try (intros _; reflexivity);
      try (apply handleMove_keeps_invariant; exact Inv);
      intros F; rewrite handleStart_activates in F; discriminate.
  - unfold exec, clear, bind, read. destruct (contextRef s); exact Inv.
  - unfold exec. rewrite save_spec. exact Inv.
Qed.

Lemma reachable_invariant s : reachable s -> idle_has_no_point s.
Proof.
  induction 1 as [rect has2d rnd | s a _ IH].
  - intros _. reflexivity.
  - now apply perform_keeps_invariant.
Qed.

(** C5: the three listeners that end an interaction (mouse up, mouse
    leaving the canvas, touch end) return normally and leave the session
    idle with [lastPoint] null; in every reachable state an idle session
    has [lastPoint] null; start, move and end each preserve that; and a
    start that follows an end records the start event's own point,
    whatever [lastPoint] was during the session before. *)
Theorem session_end_resets :
  (forall s props ev,
     ev = onMouseUp \/ ev = onMouseLeave \/ ev = onTouchEnd ->
     result (dispatch props ev) s = Returned tt /\
     isDrawing (exec (dispatch props ev) s) = false /\
     lastPoint (exec (dispatch props ev) s) = None) /\
  (forall s, reachable s -> isDrawing s = false -> lastPoint s = None) /\
  (forall s props e,
     idle_has_no_point s ->
     idle_has_no_point (exec (handleStart props e) s) /\
     idle_has_no_point (exec (handleMove props e) s) /\
     idle_has_no_point (exec handleEnd s)) /\
  (forall s props e p,
     result (getCoordinates e) s = Returned p ->
     lastPoint (exec (handleStart props e) (exec handleEnd s)) = Some p).
Proof.
  split; [|split; [|split]].
  - intros s props ev [-> | [-> | ->]]; repeat split.
  - intros s R. exact (reachable_invariant s R).
  - intros s props e Inv. split; [|split].
    + intros F. rewrite handleStart_activates in F. discriminate.
    + now apply handleMove_keeps_invariant.
    + intros _. reflexivity.
  - intros s props e p H. rewrite result_getCoordinates in H.
    apply (handleStart_records (exec handleEnd s) props e p).
    exact H.
Qed.

Lemma session_end_resets_witness :
  let props := mkProps "#e63946" brush 12 in
  let s := perform (act_event props (onMouseDown (MouseEvent 10 10)))
             (perform act_effect (perform act_mount (initial rect0 true (fun _ => 0)))) in
  (result (dispatch props onMouseLeave) s = Returned tt /\
   isDrawing (exec (dispatch props onMouseLeave) s) = false /\
   lastPoint (exec (dispatch props onMouseLeave) s) = None) /\
  lastPoint (perform (act_event props onTouchEnd) s) = None /\
  (idle_has_no_point (exec (handleStart props (MouseEvent 50 10)) s) /\
   idle_has_no_point (exec (handleMove props (MouseEvent 50 10)) s) /\
   idle_has_no_point (exec handleEnd s)) /\
  lastPoint (exec (handleStart props (MouseEvent 50 10)) (exec handleEnd s))
    = Some (mkPoint (50 - 0) (10 - 0)).
Proof.
  intros props s. destruct session_end_resets as (A & B & C & D).
  split; [exact (A s props onMouseLeave (or_intror (or_introl eq_refl)))|].
  split.
  { apply B; [|reflexivity]. unfold s. repeat apply reach_step. apply reach_initial. }
  split.
  { apply C. intros F. discriminate F. }
  apply D. reflexivity.
Defined.

(** ** Starting an interaction *)



(** ** Numbers *)







(** ** Moving with the splatter and drip tools *)



(** ** Brush strokes *)

Lemma handleMove_brush_step s props e p q :
  isDrawing s = true ->
  contextRef s = RefElem ->
  lastPoint s = Some q ->
  tool props = brush ->
  normalized (canvasRef s) (boundingRect (elem s)) e = Returned p ->
  exists c', pen_of c' = pen s /\
    handleMove props e s =
    (Returned tt,
     with_lastPoint (Some p)
       (repaint c' [brush_segment (pen s) props q p] 0 (moving s))).
Proof.
  intros Hd Hx Hl Ht H.
  destruct (handleMove_effect s props e p Hd H) as (c' & Hp & E).
  exists c'. split; [exact Hp|]. rewrite E.
  unfold move_paints, move_calls. rewrite Hx, Ht, Hl. reflexivity.
Qed.

Lemma last_after_cons (l : list Point) :
  forall a d, last (a :: l) d = last l a.
Proof.
  induction l as [|b l IH]; intros a d; [reflexivity|].
  change (last (a :: b :: l) d) with (last (b :: l) d).
  now rewrite !IH.
Qed.

Lemma run_moves_brush moves :
  forall pts s p0,
    isDrawing s = true ->
    contextRef s = RefElem ->
    lastPoint s = Some p0 ->
    Forall (fun m => tool (fst m) = brush) moves ->
    map (fun m => normalized (canvasRef s) (boundingRect (elem s)) (snd m)) moves
      = map Returned pts ->
    exists s',
      run_moves moves s = (Returned tt, s') /\
      bitmap (elem s') =
        bitmap (elem s) ++ polyline (pen s) p0 (combine (map fst moves) pts) /\
      lastPoint s' = Some (last pts p0) /\
      isDrawing s' = true /\
      random_calls s' = random_calls s.
Proof.
  induction moves as [|[props e] moves IH]; intros pts s p0 Hd Hx Hl Hb Hn.
  - destruct pts as [|p pts]; [|discriminate Hn].
    exists s. cbn [run_moves map combine polyline last]. rewrite app_nil_r.
    repeat split; assumption.
  - destruct pts as [|p pts]; [discriminate Hn|].
    cbn [map fst snd] in Hn. injection Hn as Hp Hn.
    inversion Hb as [|m ms Ht Hb']; subst m ms. cbn [fst] in Ht.
    destruct (handleMove_brush_step s props e p p0 Hd Hx Hl Ht Hp)
      as (c' & Hc' & E).
    set (s1 := with_lastPoint (Some p)
                 (repaint c' [brush_segment (pen s) props p0 p] 0 (moving s))) in *.
    assert (P1 : pen s1 = pen s) by exact Hc'.
    destruct (IH pts s1 p) as (s' & E' & Hb1 & Hl1 & Hd1 & Hr1);
      try assumption; try reflexivity.
    exists s'. cbn [run_moves]. unfold bind. rewrite E.
    split; [exact E'|]. split; [|split; [|split]].
    + rewrite Hb1, P1. cbn [map fst combine polyline].
      unfold s1. cbn [with_lastPoint repaint elem bitmap moving with_prevented].
      rewrite <- app_assoc. reflexivity.
    + rewrite Hl1, last_after_cons. reflexivity.
    + exact Hd1.
    + rewrite Hr1. unfold s1.
      cbn [with_lastPoint repaint random_calls moving with_prevented].
      apply Nat.add_0_r.
Qed.

Lemma polyline_length pn p0 legs :
  List.length (polyline pn p0 legs) = List.length legs.
Proof.
  revert p0. induction legs as [|[props p] legs IH]; intros p0;
    cbn [polyline List.length]; congruence.
Qed.

Lemma polyline_connected pn props_list :
  forall pts p0,
    List.length props_list = List.length pts ->
    connected p0 (polyline pn p0 (combine props_list pts)) pts.
Proof.
  induction props_list as [|props props_list IH]; intros [|p pts] p0 Hlen;
    try discriminate Hlen; cbn [combine polyline connected]; [exact I|].
  split.
  - exists (brushSize props). destruct p0, p. reflexivity.
  - apply IH. cbn [List.length] in Hlen. congruence.
Qed.

Lemma polyline_widths pn props_list :
  forall pts p0,
    List.length props_list = List.length pts ->
    map stroke_width (polyline pn p0 (combine props_list pts)) =
    map (fun props => Some (brushSize props)) props_list.
Proof.
  induction props_list as [|props props_list IH]; intros [|p pts] p0 Hlen;
    try discriminate Hlen; cbn [combine polyline map]; [reflexivity|].
  f_equal. apply IH. cbn [List.length] in Hlen. congruence.
Qed.

(** C1: for every run of move events processed during a session with
    the brush selected, on a configured surface, starting with
    [lastPoint = p0] and normalizing to the points [pts]: the run returns
    normally and appends to the bitmap exactly one straight segment per
    move and nothing else; the segments form a chain that leaves [p0] and
    ends, in order, at each point of [pts], every segment starting where
    the one before ended; the width of each is the [brushSize] of the
    props its move was handled with; and [lastPoint] ends as the last
    point. *)
Theorem brush_moves_draw_polyline moves pts s p0 :
  isDrawing s = true ->
  contextRef s = RefElem ->
  lastPoint s = Some p0 ->
  Forall (fun m => tool (fst m) = brush) moves ->
  map (fun m => result (getCoordinates (snd m)) s) moves = map Returned pts ->
  let s' := exec (run_moves moves) s in
  exists strokes,
    result (run_moves moves) s = Returned tt /\
    bitmap (elem s') = bitmap (elem s) ++ strokes /\
    strokes = polyline (pen s) p0 (combine (map fst moves) pts) /\
    List.length strokes = List.length moves /\
    connected p0 strokes pts /\
    map stroke_width strokes = map (fun m => Some (brushSize (fst m))) moves /\
    lastPoint s' = Some (last pts p0).
Proof.
  intros Hd Hx Hl Hb Hn s'.
  rewrite (map_ext _ _ (fun m => result_getCoordinates (snd m) s)) in Hn.
  destruct (run_moves_brush moves pts s p0 Hd Hx Hl Hb Hn)
    as (s1 & E & Hbm & Hlp & _ & _).
  assert (Hlen : List.length (map fst moves) = List.length pts).
  { apply (f_equal (@List.length _)) in Hn. rewrite !length_map in Hn.
    rewrite length_map. exact Hn. }
  exists (polyline (pen s) p0 (combine (map fst moves) pts)).
  unfold s', result, exec. rewrite E. cbn [fst snd].
  split; [reflexivity|]. split; [exact Hbm|]. split; [reflexivity|].
  split; [|split; [|split]].
  - rewrite polyline_length, length_combine, <- Hlen, length_map. apply Nat.min_id.
  - now apply polyline_connected.
  - rewrite polyline_widths by exact Hlen. apply map_map.
  - exact Hlp.
Qed.

Lemma brush_moves_draw_polyline_witness :
  let props := mkProps "#e63946" brush 12 in
  let wide := mkProps "#457b9d" brush 20 in
  let s := perform (act_event props (onMouseDown (MouseEvent 10 10)))
             (perform act_effect (perform act_mount (initial rect0 true (fun _ => 0)))) in
  let moves := [(props, MouseEvent 50 10); (wide, TouchEvent [mkTouch 50 40])] in
  let pts := [mkPoint (50 - 0) (10 - 0); mkPoint (50 - 0) (40 - 0)] in
  let p0 := mkPoint (10 - 0) (10 - 0) in
  let s' := exec (run_moves moves) s in
  exists strokes,
    result (run_moves moves) s = Returned tt /\
    bitmap (elem s') = bitmap (elem s) ++ strokes /\
    strokes = polyline (pen s) p0 (combine (map fst moves) pts) /\
    List.length strokes = List.length moves /\
    connected p0 strokes pts /\
    map stroke_width strokes = map (fun m => Some (brushSize (fst m))) moves /\
    lastPoint s' = Some (last pts p0).
Proof.
  intros props wide s moves pts p0.
  refine (brush_moves_draw_polyline moves pts s p0 eq_refl eq_refl eq_refl _ eq_refl).
  repeat constructor.
Defined.

(** ** Doubles *)

Lemma exact_rounding : Rounding exact.
Proof. split; [intros v w H; exact H | reflexivity]. Qed.

Lemma Zfloor_monotone v w : v <= w -> (Zfloor v <= Zfloor w)%Z.
Proof. intros H. apply Zfloor_lub. pose proof (Zfloor_bound v). lra. Qed.

Lemma to_1024ths_rounding : Rounding to_1024ths.
Proof.
  split.
  - intros v w H. unfold to_1024ths.
    assert (L : (Zfloor (v * 1024) <= Zfloor (w * 1024))%Z)
      by (apply Zfloor_monotone; unfold number in *; lra).
    apply IZR_le in L. lra.
  - intros z _. unfold to_1024ths.
    replace (IZR z / 2 * 1024) with (IZR (z * 512)) by (rewrite mult_IZR; lra).
    rewrite ZfloorZ, mult_IZR. lra.
Qed.

Section Bounds.
Variable round : number -> number.
Hypothesis Hround : Rounding round.

Lemma round_integer z : (Z.abs z <= 2 ^ 52)%Z -> round (IZR z) = IZR z.
Proof.
  intros Hz. replace (IZR z) with (IZR (2 * z) / 2) by (rewrite mult_IZR; lra).
  apply (rnd_halves round Hround). lia.
Qed.

(** A rounded value stays between any two doubles its exact value lies
    between. *)
Lemma round_between lo hi v :
  round lo = lo -> round hi = hi -> lo <= v <= hi -> lo <= round v <= hi.
Proof.
  intros Hlo Hhi [L H]. split.
  - rewrite <- Hlo. now apply (rnd_monotone round Hround).
  - rewrite <- Hhi. now apply (rnd_monotone round Hround).
Qed.

Lemma rounded_dripLength_range u :
  0 <= u < 1 -> 40 <= Rounded.dripLength round u <= 120.
Proof.
  intros Hu.
  assert (M : 0 <= Rounded.mul round u 80 <= 80).
  { apply round_between;
      [apply (round_integer 0); lia | apply (round_integer 80); lia | lra]. }
  unfold Rounded.dripLength, Rounded.add.
  apply round_between;
    [apply (round_integer 40); lia | apply (round_integer 120); lia | lra].
Qed.

(** A bound that holds at the largest draw holds at every draw. *)
Lemma rounded_dripLength_largest u :
  0 <= u <= largest_draw ->
  Rounded.dripLength round u <= Rounded.dripLength round largest_draw.
Proof.
  intros Hu. unfold Rounded.dripLength, Rounded.add, Rounded.mul.
  apply (rnd_monotone round Hround).
  assert (round (u * 80) <= round (largest_draw * 80))
    by (apply (rnd_monotone round Hround); lra).
  lra.
Qed.


(** An integer brush size, as the slider gives it. *)
Variable z : Z.
Hypothesis Hz : (0 < z <= 2 ^ 50)%Z.

Lemma rounded_draw_times_size u :
  0 <= u < 1 -> 0 <= Rounded.mul round u (IZR z) <= IZR z.
Proof.
  intros Hu. assert (0 < IZR z) by (apply IZR_lt; lia).
  apply round_between; [apply (round_integer 0); lia | apply round_integer; lia | nra].
Qed.


Lemma rounded_half_draw u :
  0 <= u < 1 ->
  0 <= Rounded.mul round (Rounded.mul round u (IZR z)) 0.5 <= IZR z * 0.5.
Proof.
  intros Hu. pose proof (rounded_draw_times_size u Hu) as M. unfold Rounded.mul at 1.
  apply round_between; [apply (round_integer 0); lia | | lra].
  replace (IZR z * 0.5) with (IZR z / 2) by lra.
  apply (rnd_halves round Hround). lia.
Qed.


Lemma rounded_dripWidth_range u :
  0 <= u < 1 -> IZR z * 0.5 <= Rounded.dripWidth round (IZR z) u <= IZR z.
Proof.
  intros Hu. pose proof (rounded_half_draw u Hu) as M.
  assert (Hh : Rounded.mul round (IZR z) 0.5 = IZR z * 0.5).
  { unfold Rounded.mul. replace (IZR z * 0.5) with (IZR z / 2) by lra.
    apply (rnd_halves round Hround). lia. }
  unfold Rounded.dripWidth. rewrite Hh. unfold Rounded.add.
  apply round_between; [| apply round_integer; lia | lra].
  replace (IZR z * 0.5) with (IZR z / 2) by lra.
  apply (rnd_halves round Hround). lia.
Qed.

End Bounds.

(** On the doubles themselves. *)

Lemma value_finite v sign m e :
  FloatOps.Prim2SF v = SpecFloat.S754_finite sign m e ->
  Binary64.value v = (if sign then - IZR (Zpos m) else IZR (Zpos m)) * powerRZ 2 e.
Proof. intros H. unfold Binary64.value. now rewrite H. Qed.

(** Decodes the doubles of the goal and leaves rational arithmetic. *)
Ltac decode_doubles :=
  repeat match goal with
         | |- context [Binary64.value ?v] =>
             let sf := eval vm_compute in (FloatOps.Prim2SF v) in
             match sf with
             | SpecFloat.S754_finite ?sign ?m ?e =>
                 rewrite (value_finite v sign m e) by (vm_compute; reflexivity)
             end
         end;
  unfold largest_draw; cbn [powerRZ]; rewrite ?pow_IZR;
  repeat match goal with
         | |- context [IZR (2 ^ Z.of_nat ?n)] =>
             let p := eval vm_compute in (2 ^ Z.of_nat n)%Z in
             change (2 ^ Z.of_nat n)%Z with p
         end.

Section UpperEnds.
Import PrimFloat.
Local Open Scope float_scope.

Lemma below_one_is_largest :
  Binary64.in_unit_interval Binary64.below_one = true /\
  next_up Binary64.below_one = 1 /\
  Binary64.value Binary64.below_one = largest_draw.
Proof. split; [reflexivity|]. split; [reflexivity|]. decode_doubles. lra. Qed.


(** C4, as stated, in doubles: the radius of the blob reaches the brush
    size.  With [brushSize] 12 and the largest draw below 1,
    [Math.random() * brushSize * 0.5 + brushSize * 0.5] is exactly 12. *)
Lemma drip_radius_reaches_brushSize :
  Binary64.in_unit_interval Binary64.below_one = true /\
  Binary64.dripWidth 12 Binary64.below_one = 12 /\
  (Binary64.dripWidth 12 Binary64.below_one <? 12) = false /\
  (0 <= Binary64.value Binary64.below_one < 1)%R /\
  ~ (Binary64.value (Binary64.dripWidth 12 Binary64.below_one) < 12)%R.
Proof.
  split; [reflexivity|]. split; [reflexivity|]. split; [reflexivity|].
  split; decode_doubles; lra.
Qed.

(** Elsewhere the largest draw stays below the upper end: twelve times
    it is below 12, so the droplets number at most 19, and the taper
    length is below 120. *)
Lemma largest_draw_elsewhere :
  (Binary64.twelvefold Binary64.below_one <? 12) = true /\
  (Binary64.value (Binary64.twelvefold Binary64.below_one) < 12)%R /\
  (Binary64.dripLength Binary64.below_one <? 120) = true /\
  (Binary64.value (Binary64.dripLength Binary64.below_one) < 120)%R.
Proof.
  split; [reflexivity|]. split; [decode_doubles; lra|].
  split; [reflexivity|]. decode_doubles; lra.
Qed.

(** A product can also round up to an integer: twelve times the double
    nearest 1/12 is exactly 1 in doubles, though below 1 in exact
    arithmetic.  At such a draw the doubles count one droplet more than
    exact arithmetic does; the count stays between 8 and 19 either way. *)
Lemma twelvefold_can_round_up :
  Binary64.in_unit_interval 0x1.5555555555555p-4 = true /\
  Binary64.twelvefold 0x1.5555555555555p-4 = 1 /\
  (Binary64.value 0x1.5555555555555p-4 * 12 < 1)%R /\
  (numDroplets (Binary64.value 0x1.5555555555555p-4) = 8)%R.
Proof.
  split; [reflexivity|]. split; [reflexivity|].
  assert (H : (0 <= Binary64.value 0x1.5555555555555p-4 * 12 < 1)%R)
    by (split; decode_doubles; lra).
  split; [apply H|].
  unfold numDroplets, Math_floor.
  replace (Zfloor (Binary64.value 0x1.5555555555555p-4 * 12)) with 0%Z.
  - unfold number; lra.
  - symmetry. apply Zfloor_eq. cbn [IZR]. unfold number in *. lra.
Qed.

End UpperEnds.

(** Without rounding the sizes are those of the exact model. *)
Lemma exact_sizes props u :
  Rounded.numDroplets exact u = numDroplets u /\
  Rounded.distance exact (brushSize props) u = droplet_distance props u /\
  Rounded.dropletSize exact (brushSize props) u = droplet_size props u /\
  Rounded.dripLength exact u = dripLength u /\
  Rounded.dripWidth exact (brushSize props) u = dripWidth props u.
Proof. repeat split. Qed.

(** ** The splatter cluster *)




(** ** The drip *)

(** C4 (amended): on a configured surface, with a positive brush size, one call of
    [drawDrip] at (x, y) returns normally and appends two fills in the
    current colour; the first is the full circle around (x, y) whose
    radius is the second draw stretched over the interval from
    brushSize * 0.5 to brushSize; the taper length is the first draw
    stretched over [40, 120); and for every value of a draw in [0, 1) the
    radius lies between brushSize * 0.5 and brushSize, both included, and
    the taper length in [40, 120).  The upper end of the radius is closed
    because rounding reaches it: for an integer brush size, whatever
    rounding follows each operation, the radius computed from a draw in
    [0, 1) lies between brushSize * 0.5 and brushSize and the taper
    length between 40 and 120, both ends included; and the taper length
    stays below 120 at every draw up to the largest double below 1 as
    soon as it does at that largest draw, which it does in doubles. *)
Theorem drip_dimensions s props x y :
  contextRef s = RefElem ->
  0 < brushSize props ->
  let u1 := random_source s (random_calls s) in
  let u2 := random_source s (random_calls s + 1)%nat in
  result (drawDrip props x y) s = Returned tt /\
  bitmap (elem (exec (drawDrip props x y) s)) =
    bitmap (elem s) ++
    [PaintFill (pen_transform (pen s)) (color props)
       [Ellipse x y (dripWidth props u2) (dripWidth props u2) 0 0 (Math_PI * 2)];
     PaintFill (pen_transform (pen s)) (color props) (drip_teardrop props x y u1 u2)] /\
  dripWidth props u2 = uniform_on (brushSize props * 0.5) (brushSize props) u2 /\
  dripLength u1 = uniform_on 40 120 u1 /\
  (forall u, 0 <= u < 1 ->
     brushSize props * 0.5 <= dripWidth props u <= brushSize props /\
     40 <= dripLength u < 120) /\
  (forall (round : number -> number) (z : Z),
     Rounding round ->
     brushSize props = IZR z -> (z <= 2 ^ 50)%Z ->
     forall u, 0 <= u < 1 ->
       brushSize props * 0.5 <= Rounded.dripWidth round (brushSize props) u
         <= brushSize props /\
       40 <= Rounded.dripLength round u <= 120) /\
  (forall round : number -> number,
     Rounding round ->
     Rounded.dripLength round largest_draw < 120 ->
     forall u, 0 <= u <= largest_draw -> Rounded.dripLength round u < 120).
Proof.
  intros Hx Hb u1 u2.
  destruct (drawDrip_drew s props x y Hx) as (c' & _ & E).
  unfold result, exec. rewrite E. cbn [fst snd repaint elem bitmap].
  split; [reflexivity|]. split; [reflexivity|].
  split; [unfold dripWidth, uniform_on, number; lra|].
  split; [unfold dripLength, uniform_on, number; lra|].
  split; [|split].
  - intros u Hu. unfold dripWidth, dripLength. split; [nra | lra].
  - intros round z Hround Hz Hle u Hu. rewrite Hz in *.
    assert (Hpos : (0 < z <= 2 ^ 50)%Z) by (split; [apply lt_IZR; exact Hb | exact Hle]).
    split.
    + exact (rounded_dripWidth_range round Hround z Hpos u Hu).
    + exact (rounded_dripLength_range round Hround u Hu).
  - intros round Hround Hlast u Hu.
    pose proof (rounded_dripLength_largest round Hround u Hu). lra.
Qed.

Lemma drip_dimensions_witness :
  let props := mkProps "#e63946" drip 12 in
  let s := perform act_effect (perform act_mount (initial rect0 true (fun _ => 0.5))) in
  (12 * 0.5 <= dripWidth props 0.5 <= 12 /\ 40 <= dripLength 0.5 < 120) /\
  12 * 0.5 <= Rounded.dripWidth to_1024ths 12 0.999 <= 12.
Proof.
  intros props s.
  assert (Hb : 0 < brushSize props) by (change (0 < 12); lra).
  destruct (drip_dimensions s props 100 100 eq_refl Hb)
    as (_ & _ & _ & _ & H & Hrounded & _).
  split; [apply (H 0.5); lra|].
  assert (Hz : (12 <= 2 ^ 50)%Z) by (vm_compute; discriminate).
  assert (Hu : 0 <= 0.999 < 1) by lra.
  exact (proj1 (Hrounded to_1024ths 12%Z to_1024ths_rounding eq_refl Hz 0.999 Hu)).
Defined.

(** ** The teardrop *)

(** C3, as stated, at a drip of brush size 12 with both draws 0.5: the
    blob has radius 9, and the teardrop drawn under it is 5.4 wide at its
    top, not 9. *)
Lemma teardrop_top_is_not_blob_radius :
  let props := mkProps "#e63946" drip 12 in
  let s := perform act_effect (perform act_mount (initial rect0 true (fun _ => 0.5))) in
  exists tr r teardrop,
    bitmap (elem (exec (drawDrip props 100 100) s)) =
      bitmap (elem s) ++
      [PaintFill tr "#e63946" [Ellipse 100 100 r r 0 0 (Math_PI * 2)];
       PaintFill tr "#e63946" teardrop] /\
    r = 9 /\
    width_at (quadratic_curves teardrop) 0 = 5.4 /\
    width_at (quadratic_curves teardrop) 0 <> r.
Proof.
  intros props s.
  destruct (drawDrip_drew s props 100 100 eq_refl) as (c' & _ & E).
  exists (pen_transform (pen s)), (dripWidth props 0.5),
         (drip_teardrop props 100 100 0.5 0.5).
  unfold exec. rewrite E. cbn [snd repaint elem bitmap].
  split; [reflexivity|].
  unfold drip_teardrop, dripWidth, dripLength.
  cbn [quadratic_curves curves_from width_at bezier px py brushSize props].
  unfold number. repeat split; lra.
Qed.

Lemma teardrop_symmetric x y w len t :
  let down : Curve :=
    (mkPoint (x - w * 0.3) y, mkPoint (x - w * 0.2) (y + len * 0.5),
     mkPoint x (y + len)) in
  let up : Curve :=
    (mkPoint x (y + len), mkPoint (x + w * 0.2) (y + len * 0.5),
     mkPoint (x + w * 0.3) y) in
  bezier up (1 - t) = mirror x (bezier down t) /\
  py (bezier down t) = y + len * t /\
  width_at [down; up] t = 2 * w * (1 - t) * (0.3 + 0.1 * t).
Proof.
  cbv zeta. unfold mirror. cbn [bezier width_at px py]. unfold number.
  split; [f_equal; real_eq|]. split; real_eq.
Qed.

(** C3 (amended): on a configured surface one call of [drawDrip] at
    (x, y) appends, after the blob, one fill bounded by two quadratic
    curves.  The first runs from (x - 0.3 r, y), at the height of the blob
    centre, down to the tip (x, y + taper length); the second runs from
    the tip back up to (x + 0.3 r, y); each is the mirror image of the
    other in the vertical line through x.  At parameter t the shape is at
    depth t * taper length and 2 r (1 - t) (0.3 + 0.1 t) wide: 0.6 times
    the blob radius r at the top, zero at the tip, and strictly narrower
    the deeper, when r is positive. *)
Theorem teardrop_shape s props x y :
  contextRef s = RefElem ->
  let u1 := random_source s (random_calls s) in
  let u2 := random_source s (random_calls s + 1)%nat in
  let r := dripWidth props u2 in
  let len := dripLength u1 in
  let down : Curve :=
    (mkPoint (x - r * 0.3) y, mkPoint (x - r * 0.2) (y + len * 0.5),
     mkPoint x (y + len)) in
  let up : Curve :=
    (mkPoint x (y + len), mkPoint (x + r * 0.2) (y + len * 0.5),
     mkPoint (x + r * 0.3) y) in
  (exists teardrop,
     bitmap (elem (exec (drawDrip props x y) s)) =
       bitmap (elem s) ++
       [PaintFill (pen_transform (pen s)) (color props)
          [Ellipse x y r r 0 0 (Math_PI * 2)];
        PaintFill (pen_transform (pen s)) (color props) teardrop] /\
     quadratic_curves teardrop = [down; up]) /\
  (forall t, bezier up (1 - t) = mirror x (bezier down t)) /\
  bezier down 0 = mkPoint (x - r * 0.3) y /\
  bezier down 1 = mkPoint x (y + len) /\
  bezier up 0 = mkPoint x (y + len) /\
  bezier up 1 = mkPoint (x + r * 0.3) y /\
  (forall t, py (bezier down t) = y + len * t) /\
  (forall t, width_at [down; up] t = 2 * r * (1 - t) * (0.3 + 0.1 * t)) /\
  width_at [down; up] 0 = 0.6 * r /\
  width_at [down; up] 1 = 0 /\
  (0 < r -> forall t t', 0 <= t < t' -> t' <= 1 ->
     width_at [down; up] t' < width_at [down; up] t).
Proof.
  intros Hx u1 u2 r len down up.
  destruct (drawDrip_drew s props x y Hx) as (c' & _ & E).
  assert (S := fun t => teardrop_symmetric x y r len t). cbv zeta in S.
  fold down up in S.
  split.
  { exists (drip_teardrop props x y u1 u2).
    unfold exec. rewrite E. cbn [snd repaint elem bitmap].
    split; reflexivity. }
  split; [intros t; apply S|].
  unfold down, up. cbn [bezier px py]. unfold number.
  split; [f_equal; real_eq|]. split; [f_equal; real_eq|].
  split; [f_equal; real_eq|]. split; [f_equal; real_eq|].
  fold down up.
  split; [intros t; apply S|]. split; [intros t; apply S|].
  split; [rewrite (proj2 (proj2 (S 0))); real_eq|].
  split; [rewrite (proj2 (proj2 (S 1))); real_eq|].
  intros Hr t t' Ht Ht'.
  rewrite (proj2 (proj2 (S t))), (proj2 (proj2 (S t'))). unfold number.
  assert (G : 0 < r * ((t' - t) * (0.2 + 0.1 * (t + t')))).
  { apply Rmult_lt_0_compat; [exact Hr|]. apply Rmult_lt_0_compat; lra. }
  lra.
Qed.

Lemma teardrop_shape_witness :
  let props := mkProps "#e63946" drip 12 in
  let s := perform act_effect (perform act_mount (initial rect0 true (fun _ => 0.5))) in
  let r := dripWidth props 0.5 in
  let len := dripLength 0.5 in
  let down : Curve :=
    (mkPoint (100 - r * 0.3) 100, mkPoint (100 - r * 0.2) (100 + len * 0.5),
     mkPoint 100 (100 + len)) in
  let up : Curve :=
    (mkPoint 100 (100 + len), mkPoint (100 + r * 0.2) (100 + len * 0.5),
     mkPoint (100 + r * 0.3) 100) in
  width_at [down; up] 0 = 0.6 * r /\
  width_at [down; up] 1 = 0 /\
  width_at [down; up] 0.5 < width_at [down; up] 0.
Proof.
  intros props s r len down up.
  destruct (teardrop_shape s props 100 100 eq_refl)
    as (_ & _ & _ & _ & _ & _ & _ & _ & Htop & Htip & Hmono).
  split; [exact Htop|]. split; [exact Htip|].
  apply Hmono.
  - change (0 < 0.5 * 12 * 0.5 + 12 * 0.5). lra.
  - lra.
  - lra.
Defined.

(** * Further properties of the component *)

(** ** What an event paints *)

Lemma handleStart_throws s props e err :
  normalized (canvasRef s) (boundingRect (elem s)) e = Threw err ->
  handleStart props e s = (Threw err, with_isDrawing true (moving s)).
Proof.
  intros H. unfold handleStart.
  unfold bind at 1. unfold preventDefault, modify at 1. fold (moving s).
  unfold bind at 1. unfold modify at 1.
  unfold bind at 1. rewrite getCoordinates_normalized.
  replace (canvasRef _) with (canvasRef s) by now open_state s.
  replace (boundingRect _) with (boundingRect (elem s)) by now open_state s.
  rewrite H. reflexivity.
Qed.

Lemma handleMove_throws s props e err :
  isDrawing s = true ->
  normalized (canvasRef s) (boundingRect (elem s)) e = Threw err ->
  handleMove props e s = (Threw err, moving s).
Proof.
  intros Hd H. unfold handleMove.
  unfold bind at 1. unfold preventDefault, modify at 1. fold (moving s).
  unfold bind at 1. unfold read at 1.
  replace (isDrawing (moving s)) with true by (now open_state s).
  cbv beta iota delta [negb].
  unfold bind at 1. rewrite getCoordinates_normalized.
  replace (canvasRef (moving s)) with (canvasRef s) by now open_state s.
  replace (boundingRect (elem (moving s))) with (boundingRect (elem s))
    by now open_state s.
  rewrite H. reflexivity.
Qed.

Lemma brush_segment_painted pn props a b :
  painted_with pn (color props) (brush_segment pn props a b).
Proof. repeat split. Qed.

Lemma droplets_painted pn props x y rnd n :
  forall k, Forall (painted_with pn (color props)) (droplets pn props x y rnd k n).
Proof.
  induction n as [|n IH]; intros k; cbn [droplets]; constructor.
  - repeat split.
  - apply IH.
Qed.

Lemma drip_paints_painted pn props x y u1 u2 :
  Forall (painted_with pn (color props)) (drip_paints pn props x y u1 u2).
Proof. repeat constructor. Qed.

Lemma start_paints_painted s props p :
  Forall (painted_with (pen s) (color props)) (start_paints s props p).
Proof.
  unfold start_paints. destruct (contextRef s); [constructor|].
  destruct (tool props);
    [constructor | apply droplets_painted | apply drip_paints_painted].
Qed.

Lemma move_paints_painted s props p :
  Forall (painted_with (pen s) (color props)) (move_paints s props p).
Proof.
  unfold move_paints. destruct (contextRef s); [constructor|].
  destruct (tool props), (lastPoint s) as [q|];
    repeat match goal with
           | |- context [gt ?a ?b] => destruct (gt a b)
           end;
    first [ apply droplets_painted
          | apply drip_paints_painted
          | constructor; [apply brush_segment_painted | constructor]
          | constructor ].
Qed.

Lemma repaint_nothing s : repaint (context (elem s)) [] 0 s = s.
Proof. unfold repaint. rewrite app_nil_r, Nat.add_0_r. now open_state s. Qed.

Lemma kept_surface_refl s : kept_surface s s.
Proof. repeat split. Qed.

Lemma appends_nothing props s s' :
  kept_surface s s' ->
  random_calls s' = random_calls s ->
  bitmap (elem s') = bitmap (elem s) ->
  appends_in props s s'.
Proof.
  intros K R B. split; [exact K|]. split; [lia|].
  exists []. split; [now rewrite app_nil_r|]. split; [constructor | easy].
Qed.

Lemma handleStart_appends s props e :
  appends_in props s (exec (handleStart props e) s).
Proof.
  unfold exec.
  destruct (normalized (canvasRef s) (boundingRect (elem s)) e) as [p|err] eqn:H.
  - destruct (handleStart_effect s props e p H) as (c' & Hc & ->). cbn [snd].
    split; [repeat split; exact Hc|].
    split; [cbn [repaint random_calls started with_lastPoint with_isDrawing
                  with_prevented]; lia|].
    exists (start_paints s props p).
    split; [reflexivity|]. split; [apply start_paints_painted|].
    intros Hx. unfold start_paints. now rewrite Hx.
  - rewrite (handleStart_throws s props e err H). cbn [snd].
    apply appends_nothing; [repeat split | reflexivity | reflexivity].
Qed.

Lemma handleMove_appends s props e :
  appends_in props s (exec (handleMove props e) s).
Proof.
  unfold exec. destruct (isDrawing s) eqn:Hd.
  - destruct (normalized (canvasRef s) (boundingRect (elem s)) e) as [p|err] eqn:H.
    + destruct (handleMove_effect s props e p Hd H) as (c' & Hc & ->). cbn [snd].
      split; [repeat split; exact Hc|].
      split; [cbn [repaint random_calls moving with_lastPoint with_prevented]; lia|].
      exists (move_paints s props p).
      split; [reflexivity|]. split; [apply move_paints_painted|].
      intros Hx. unfold move_paints. now rewrite Hx.
    + rewrite (handleMove_throws s props e err Hd H). cbn [snd].
      apply appends_nothing; [repeat split | reflexivity | reflexivity].
  - rewrite (handleMove_idle s props e Hd). cbn [snd].
    apply appends_nothing; [repeat split | reflexivity | reflexivity].
Qed.

Lemma handleEnd_appends s props : appends_in props s (exec handleEnd s).
Proof.
  unfold exec. rewrite handleEnd_spec. cbn [snd].
  apply appends_nothing; [repeat split | reflexivity | reflexivity].
Qed.

(** Every listener of the canvas, whatever the state and the event, and
    also when it throws: it leaves the refs, the logical size, the
    element's size and place and the pen as they were; the bitmap only
    grows; what it appends is painted in the colour of the current props
    under the surface's pen; it appends nothing without a context; and it
    only moves forward in the random stream. *)
Theorem events_only_append s props ev :
  let s' := exec (dispatch props ev) s in
  kept_surface s s' /\
  (random_calls s <= random_calls s')%nat /\
  exists paints,
    bitmap (elem s') = bitmap (elem s) ++ paints /\
    Forall (painted_with (pen s) (color props)) paints /\
    (contextRef s = RefNull -> paints = []).
Proof.
  cbv zeta. change (appends_in props s (exec (dispatch props ev) s)).
  destruct ev as [e | e | | | e | e |]; unfold dispatch.
  - apply handleStart_appends.
  - apply handleMove_appends.
  - apply handleEnd_appends.
  - apply handleEnd_appends.
  - apply handleStart_appends.
  - apply handleMove_appends.
  - apply handleEnd_appends.
Qed.

(** ** The surface in every reachable state *)

Lemma setupCanvas_unmounted s :
  canvasRef s = RefNull -> setupCanvas s = (Returned tt, s).
Proof. intros H. unfold setupCanvas, bind, read. rewrite H. reflexivity. Qed.

Lemma setupCanvas_no_context s w h :
  canvasRef s = RefElem ->
  supports2d (elem s) = false ->
  canvasSize s = mkSize w h ->
  setupCanvas s =
  (Returned tt,
   mkState
     (mkCanvas (w * 2) (h * 2) (Some w) (Some h) (boundingRect (elem s)) false
        default_context [])
     RefElem (contextRef s) (isDrawing s) (lastPoint s) (mkSize w h)
     (random_source s) (random_calls s) (prevented s)).
Proof.
  open_state s. cbn [canvasRef supports2d elem canvasSize]. intros -> -> ->.
  reflexivity.
Qed.

Lemma logical_pen_eq : mkPen (mkTransform (1 * 2) (1 * 2)) cap_round join_round = logical_pen.
Proof. unfold logical_pen. now rewrite Rmult_1_l. Qed.

Lemma setupCanvas_establishes s :
  (contextRef s = RefElem -> canvasRef s = RefElem /\ supports2d (elem s) = true) ->
  (contextRef s = RefNull -> bitmap (elem s) = []) ->
  surface_invariant (exec setupCanvas s).
Proof.
  intros Hready Hempty. unfold exec.
  destruct (canvasRef s) eqn:Hc.
  - rewrite (setupCanvas_unmounted s Hc). cbn [snd]. unfold surface_invariant.
    destruct (contextRef s) eqn:Hx; [now apply Hempty|].
    destruct (Hready eq_refl) as [F _]. discriminate F.
  - destruct (canvasSize s) as [w h] eqn:Hsz.
    destruct (supports2d (elem s)) eqn:H2.
    + rewrite (setupCanvas_ready s w h Hc H2 Hsz). cbn [snd].
      unfold surface_invariant. cbn [contextRef canvasRef elem supports2d
        canvas_width canvas_height canvasSize width height bitmap].
      repeat split.
      * apply logical_pen_eq.
      * exists []. split; [|constructor]. unfold backdrop. cbn [width height].
        now rewrite Rmult_1_l.
    + rewrite (setupCanvas_no_context s w h Hc H2 Hsz). cbn [snd].
      unfold surface_invariant. cbn [contextRef elem bitmap].
      destruct (contextRef s) eqn:Hx; [reflexivity|].
      destruct (Hready eq_refl) as [_ F]. discriminate F.
Qed.

Lemma clear_drew s :
  contextRef s = RefElem ->
  drew clear s
    [PaintRect (pen_transform (pen s)) background 0 0
       (width (canvasSize s)) (height (canvasSize s))] 0.
Proof.
  intros H. open_state s. cbn [contextRef] in H. subst.
  eexists. split; [|run; unfold repaint, pen, pen_of; run;
                    rewrite Nat.add_0_r; reflexivity].
  reflexivity.
Qed.

Lemma logical_paints pn col paints :
  pn = logical_pen ->
  Forall (painted_with pn col) paints -> Forall in_logical_space paints.
Proof.
  intros ->. apply Forall_impl. intros op (T & _ & S).
  split; [exact T|]. destruct op; exact S.
Qed.

Lemma perform_keeps_surface a s :
  surface_invariant s -> surface_invariant (perform a s).
Proof.
  intros Inv.
  assert (Hready : contextRef s = RefElem ->
                   canvasRef s = RefElem /\ supports2d (elem s) = true).
  { intros Hx. unfold surface_invariant in Inv. rewrite Hx in Inv.
    destruct Inv as (A & B & _). now split. }
  assert (Hempty : contextRef s = RefNull -> bitmap (elem s) = []).
  { intros Hx. unfold surface_invariant in Inv. now rewrite Hx in Inv. }
  destruct a as [| | container | props ev | |]; unfold perform.
  - unfold surface_invariant in *. cbn [exec mount modify snd with_canvasRef
      contextRef canvasRef elem canvasSize]. unfold pen in *.
    cbn [elem]. destruct (contextRef s); [exact Inv|].
    destruct Inv as (_ & B). split; [reflexivity | exact B].
  - now apply setupCanvas_establishes.
  - destruct container as [rect|]; [|exact Inv].
    unfold updateSize, exec, bind, setCanvasSize, modify.
    match goal with
    | |- surface_invariant (snd (setupCanvas ?t)) =>
        change (surface_invariant (exec setupCanvas t));
        apply setupCanvas_establishes; [exact Hready | exact Hempty]
    end.
  - assert (Hap : appends_in props s (exec (dispatch props ev) s))
      by (destruct ev; unfold dispatch;
          first [apply handleStart_appends | apply handleMove_appends
                | apply handleEnd_appends]).
    destruct Hap as (K & _ & paints & Hb & Hp & Hn).
    destruct K as (Kc & Kx & Ks & _ & Kw & Kh & _ & _ & _ & K2 & Kp).
    unfold surface_invariant in *. rewrite Kx.
    destruct (contextRef s) eqn:Hx.
    + rewrite Hb, (Hn eq_refl), Inv. reflexivity.
    + destruct Inv as (A & B & C & D & E & rest & F & G).
      rewrite Kc, K2, Kw, Kh, Ks, Kp.
      repeat split; try assumption.
      exists (rest ++ paints). split; [rewrite Hb, F; reflexivity|].
      apply Forall_app. split; [exact G|].
      now apply (logical_paints (pen s) (color props)).
  - unfold exec. destruct (contextRef s) eqn:Hx.
    + rewrite (clear_unready s Hx). exact Inv.
    + destruct (clear_drew s Hx) as (c' & Hc & ->). cbn [snd].
      unfold surface_invariant in *. rewrite Hx in Inv.
      cbn [repaint contextRef canvasRef elem supports2d canvas_width canvas_height
           canvasSize bitmap]. rewrite Hx.
      destruct Inv as (A & B & C & D & E & rest & F & G).
      repeat split; try assumption.
      * change (pen_of c' = logical_pen). now rewrite Hc.
      * exists (rest ++ [PaintRect (pen_transform (pen s)) background 0 0
                           (width (canvasSize s)) (height (canvasSize s))]).
        split; [rewrite F; reflexivity|].
        apply Forall_app. split; [exact G|]. constructor; [|constructor].
        rewrite E. split; [reflexivity | exact I].
  - unfold exec. rewrite save_spec. exact Inv.
Qed.

Lemma reachable_surface s : reachable s -> surface_invariant s.
Proof.
  induction 1 as [rect has2d rnd | s a _ IH].
  - reflexivity.
  - now apply perform_keeps_surface.
Qed.

(** In every reachable state that has a rendering context: the canvas is
    mounted, the backing store measures twice the logical size, the pen is
    the scale by 2 with round caps and joins, and the bitmap is the full
    background followed only by paints made under that scale, strokes
    with round ends; so [save()] exports an image of twice the logical
    size whose bottom layer is the background.  In every reachable state
    without a context the bitmap is empty. *)
Theorem reachable_surface_is_configured s :
  reachable s ->
  (contextRef s = RefNull -> bitmap (elem s) = []) /\
  (contextRef s = RefElem ->
   canvasRef s = RefElem /\
   canvas_width (elem s) = width (canvasSize s) * 2 /\
   canvas_height (elem s) = height (canvasSize s) * 2 /\
   pen s = logical_pen /\
   exists rest,
     bitmap (elem s) = backdrop (canvasSize s) :: rest /\
     Forall in_logical_space rest /\
     result save s =
       Returned (Some (mkDataURL "image/png" (width (canvasSize s) * 2)
                         (height (canvasSize s) * 2)
                         (backdrop (canvasSize s) :: rest)))).
Proof.
  intros R. pose proof (reachable_surface s R) as Inv.
  unfold surface_invariant in Inv. split; intros Hx; rewrite Hx in Inv.
  - exact Inv.
  - destruct Inv as (A & B & C & D & E & rest & F & G).
    repeat split; try assumption.
    exists rest. repeat split; try assumption.
    unfold result. rewrite save_spec, A. cbn [fst]. unfold toDataURL.
    now rewrite C, D, F.
Qed.

Lemma reachable_surface_is_configured_witness :
  let props := mkProps "#e63946" brush 12 in
  let s := perform (act_event props (onMouseMove (MouseEvent 50 10)))
             (perform (act_event props (onMouseDown (MouseEvent 10 10)))
                (perform act_effect
                   (perform act_mount (initial rect0 true (fun _ => 0))))) in
  canvas_width (elem s) = 800 * 2 /\
  pen s = logical_pen /\
  exists rest, bitmap (elem s) = backdrop (mkSize 800 600) :: rest.
Proof.
  intros props s.
  assert (R : reachable s) by (unfold s; repeat apply reach_step; apply reach_initial).
  destruct (reachable_surface_is_configured s R) as [_ H].
  destruct (H eq_refl) as (_ & W & _ & P & rest & B & _).
  split; [exact W|]. split; [exact P|]. exists rest. exact B.
Defined.

(** [clear()] on a reachable state with a context returns normally and
    appends the background over the whole logical area, which in physical
    pixels is the whole backing store, so the image [save()] exports next
    is topped by the full background.  It leaves the session as it was: a
    clear in the middle of a stroke does not end the stroke. *)
Theorem clear_covers_everything s :
  reachable s ->
  contextRef s = RefElem ->
  let s' := exec clear s in
  result clear s = Returned tt /\
  bitmap (elem s') = bitmap (elem s) ++ [backdrop (canvasSize s)] /\
  physical_extent (backdrop (canvasSize s)) =
    Some (0, 0, canvas_width (elem s'), canvas_height (elem s')) /\
  isDrawing s' = isDrawing s /\
  lastPoint s' = lastPoint s /\
  result save s' =
    Returned (Some (mkDataURL "image/png" (canvas_width (elem s'))
                      (canvas_height (elem s'))
                      (bitmap (elem s) ++ [backdrop (canvasSize s)]))).
Proof.
  intros R Hx s'.
  pose proof (reachable_surface s R) as Inv.
  unfold surface_invariant in Inv. rewrite Hx in Inv.
  destruct Inv as (Hc & _ & W & Hh & P & _).
  destruct (clear_drew s Hx) as (c' & _ & E).
  unfold s', result, exec. rewrite E. cbn [fst snd repaint elem bitmap isDrawing
    lastPoint canvas_width canvas_height]. rewrite P. cbn [pen_transform logical_pen].
  fold (backdrop (canvasSize s)).
  split; [reflexivity|]. split; [reflexivity|].
  split.
  { unfold backdrop, physical_extent. cbn [scaleX scaleY]. rewrite W, Hh.
    f_equal. f_equal; [f_equal; [f_equal|]|]; unfold number; lra. }
  split; [reflexivity|]. split; [reflexivity|].
  rewrite save_spec. cbn [fst].
  change (canvasRef (repaint c' [backdrop (canvasSize s)] 0 s)) with (canvasRef s).
  rewrite Hc. reflexivity.
Qed.

Lemma clear_covers_everything_witness :
  let props := mkProps "#e63946" brush 12 in
  let s := perform (act_event props (onMouseMove (MouseEvent 50 10)))
             (perform (act_event props (onMouseDown (MouseEvent 10 10)))
                (perform act_effect
                   (perform act_mount (initial rect0 true (fun _ => 0))))) in
  bitmap (elem (exec clear s)) = bitmap (elem s) ++ [backdrop (canvasSize s)] /\
  isDrawing (exec clear s) = true.
Proof.
  intros props s.
  assert (R : reachable s) by (unfold s; repeat apply reach_step; apply reach_initial).
  destruct (clear_covers_everything s R eq_refl) as (_ & B & _ & D & _).
  split; [exact B | exact D].
Defined.

(** ** Moves outside a session *)

(** A move received while no session is active returns normally, also
    for a touch event that lists no contact; it paints nothing, consumes
    no random draw, leaves the canvas element, [lastPoint] and the idle
    flag as they were, and only suppresses the event's default. *)
Theorem idle_move_is_ignored s props e :
  isDrawing s = false ->
  let s' := exec (handleMove props e) s in
  result (handleMove props e) s = Returned tt /\
  elem s' = elem s /\
  isDrawing s' = false /\
  lastPoint s' = lastPoint s /\
  random_calls s' = random_calls s /\
  prevented s' = S (prevented s).
Proof.
  intros Hd. cbv zeta. unfold result, exec. rewrite (handleMove_idle s props e Hd).
  cbn [fst snd moving with_prevented elem isDrawing lastPoint random_calls prevented].
  repeat split. exact Hd.
Qed.

Lemma idle_move_is_ignored_witness :
  let props := mkProps "#e63946" splatter 20 in
  let s := perform act_effect (perform act_mount (initial rect0 true (fun _ => 0.8))) in
  result (handleMove props (TouchEvent [])) s = Returned tt /\
  elem (exec (handleMove props (TouchEvent [])) s) = elem s /\
  random_calls (exec (handleMove props (TouchEvent [])) s) = random_calls s.
Proof.
  intros props s.
  destruct (idle_move_is_ignored s props (TouchEvent []) eq_refl)
    as (A & B & _ & _ & C & _).
  split; [exact A|]. split; [exact B | exact C].
Defined.

(** ** Touch and mouse *)

Lemma normalized_first_touch canvas rect t ts :
  normalized canvas rect (TouchEvent (t :: ts)) =
  normalized canvas rect (MouseEvent (touch_clientX t) (touch_clientY t)).
Proof. destruct canvas; reflexivity. Qed.

(** A touch start or touch move does exactly what the mouse event at the
    client coordinates of its first contact does, in every state: the same
    outcome and the same resulting state.  Further contacts of a
    multi-touch event are ignored. *)
Theorem touch_acts_like_mouse s props t ts :
  dispatch props (onTouchStart (TouchEvent (t :: ts))) s =
  dispatch props (onMouseDown (MouseEvent (touch_clientX t) (touch_clientY t))) s /\
  dispatch props (onTouchMove (TouchEvent (t :: ts))) s =
  dispatch props (onMouseMove (MouseEvent (touch_clientX t) (touch_clientY t))) s /\
  dispatch props onTouchEnd s = dispatch props onMouseUp s.
Proof.
  pose proof (normalized_first_touch (canvasRef s) (boundingRect (elem s)) t ts) as N.
  destruct (normalized (canvasRef s) (boundingRect (elem s))
              (MouseEvent (touch_clientX t) (touch_clientY t))) as [p|err] eqn:M.
  - split; [|split; [|reflexivity]]; unfold dispatch.
    + now rewrite (handleStart_spec s props _ p N), (handleStart_spec s props _ p M).
    + destruct (isDrawing s) eqn:Hd.
      * now rewrite (handleMove_drawing s props _ p Hd N),
                    (handleMove_drawing s props _ p Hd M).
      * now rewrite !(handleMove_idle s props _ Hd).
  - split; [|split; [|reflexivity]]; unfold dispatch.
    + now rewrite (handleStart_throws s props _ err N),
                  (handleStart_throws s props _ err M).
    + destruct (isDrawing s) eqn:Hd.
      * now rewrite (handleMove_throws s props _ err Hd N),
                    (handleMove_throws s props _ err Hd M).
      * now rewrite !(handleMove_idle s props _ Hd).
Qed.

(** ** A whole brush gesture *)

(** Pressing at [p0], moving through [pts] and releasing, with the brush
    selected throughout, on a surface with a context and from any session
    state: the gesture returns normally, appends exactly the polyline that
    leaves [p0] and visits [pts] in order (nothing at all when there is no
    move: a click with the brush paints nothing), consumes no random draw,
    and ends idle with [lastPoint] null. *)
Theorem brush_gesture_draws_polyline s props e moves p0 pts :
  contextRef s = RefElem ->
  tool props = brush ->
  Forall (fun m => tool (fst m) = brush) moves ->
  result (getCoordinates e) s = Returned p0 ->
  map (fun m => result (getCoordinates (snd m)) s) moves = map Returned pts ->
  let s' := exec (gesture props e moves) s in
  result (gesture props e moves) s = Returned tt /\
  bitmap (elem s') =
    bitmap (elem s) ++ polyline (pen s) p0 (combine (map fst moves) pts) /\
  isDrawing s' = false /\
  lastPoint s' = None /\
  random_calls s' = random_calls s.
Proof.
  intros Hx Ht Hb H0 Hn s'.
  rewrite result_getCoordinates in H0.
  rewrite (map_ext _ _ (fun m => result_getCoordinates (snd m) s)) in Hn.
  destruct (handleStart_effect s props e p0 H0) as (c' & Hc & E).
  unfold start_paints, start_calls in E. rewrite Hx, Ht in E.
  set (s1 := repaint c' [] 0 (started p0 s)) in *.
  destruct (run_moves_brush moves pts s1 p0) as (s2 & E2 & Hbm & _ & _ & Hr);
    try assumption; try reflexivity.
  unfold s', result, exec, gesture, bind. rewrite E, E2, handleEnd_spec.
  cbn [fst snd with_lastPoint with_isDrawing elem isDrawing lastPoint random_calls].
  split; [reflexivity|]. split; [|split; [reflexivity|split; [reflexivity|]]].
  - rewrite Hbm. replace (pen s1) with (pen s) by (symmetry; exact Hc).
    unfold s1. cbn [repaint elem bitmap started with_lastPoint with_isDrawing
                    with_prevented]. now rewrite app_nil_r.
  - rewrite Hr. unfold s1. cbn [repaint random_calls started with_lastPoint
                                with_isDrawing with_prevented]. apply Nat.add_0_r.
Qed.

Lemma brush_gesture_draws_polyline_witness :
  let props := mkProps "#e63946" brush 12 in
  let s := perform act_effect (perform act_mount (initial rect0 true (fun _ => 0))) in
  let drag := exec (gesture props (MouseEvent 10 10) [(props, MouseEvent 50 10)]) s in
  let click := exec (gesture props (MouseEvent 10 10) []) s in
  bitmap (elem drag) =
    bitmap (elem s) ++
    [brush_segment (pen s) props (mkPoint (10 - 0) (10 - 0)) (mkPoint (50 - 0) (10 - 0))] /\
  bitmap (elem click) = bitmap (elem s) ++ [] /\
  lastPoint drag = None.
Proof.
  intros props s drag click.
  assert (Hb : Forall (fun m : CanvasProps * InteractionEvent => tool (fst m) = brush)
                 [(props, MouseEvent 50 10)]) by (repeat constructor).
  destruct (brush_gesture_draws_polyline s props (MouseEvent 10 10)
              [(props, MouseEvent 50 10)] (mkPoint (10 - 0) (10 - 0))
              [mkPoint (50 - 0) (10 - 0)] eq_refl eq_refl Hb eq_refl eq_refl)
    as (_ & B & _ & L & _).
  destruct (brush_gesture_draws_polyline s props (MouseEvent 10 10)
              [] (mkPoint (10 - 0) (10 - 0)) [] eq_refl eq_refl
              (Forall_nil _) eq_refl eq_refl)
    as (_ & B0 & _).
  split; [exact B|]. split; [exact B0 | exact L].
Defined.

(** ** Resizing *)

Lemma updateSize_ready s rect :
  canvasRef s = RefElem ->
  supports2d (elem s) = true ->
  let w := Math_floor (rect_width rect) in
  let h := Math_floor (rect_height rect) in
  updateSize (Some rect) s =
  (Returned tt,
   mkState
     (mkCanvas (w * 2) (h * 2) (Some w) (Some h) (boundingRect (elem s)) true
        (mkContext (mkTransform (1 * 2) (1 * 2)) cap_round join_round background
           "#000000" 1 [])
        [PaintRect (mkTransform (1 * 2) (1 * 2)) background 0 0 w h])
     RefElem RefElem (isDrawing s) (lastPoint s) (mkSize w h)
     (random_source s) (random_calls s) (prevented s)).
Proof.
  intros Hc H2 w h. unfold updateSize, bind, setCanvasSize, modify.
  now rewrite (setupCanvas_ready _ w h) by (open_state s; assumption || reflexivity).
Qed.

(** A resize rounds the measured container down to whole pixels: the new
    logical size is a pair of integers, each at most the measured size
    and less than one below it, and on a mounted canvas with a 2D context
    the backing store gets exactly twice as many pixels.  A resize while
    the container ref is null changes nothing. *)
Theorem resize_rounds_down s rect :
  canvasRef s = RefElem ->
  supports2d (elem s) = true ->
  let s' := exec (updateSize (Some rect)) s in
  (exists zw zh : Z,
     canvasSize s' = mkSize (IZR zw) (IZR zh) /\
     IZR zw <= rect_width rect < IZR zw + 1 /\
     IZR zh <= rect_height rect < IZR zh + 1 /\
     canvas_width (elem s') = IZR (2 * zw) /\
     canvas_height (elem s') = IZR (2 * zh)) /\
  updateSize None s = (Returned tt, s).
Proof.
  intros Hc H2 s'. split; [|reflexivity].
  unfold s', exec. rewrite (updateSize_ready s rect Hc H2).
  cbn [snd canvasSize elem canvas_width canvas_height]. unfold Math_floor.
  exists (Zfloor (rect_width rect)), (Zfloor (rect_height rect)).
  split; [reflexivity|].
  split; [apply Zfloor_bound|]. split; [apply Zfloor_bound|].
  rewrite !mult_IZR. split; unfold number; lra.
Qed.

Lemma resize_rounds_down_witness :
  let s := perform act_effect (perform act_mount (initial rect0 true (fun _ => 0))) in
  let s' := exec (updateSize (Some (mkRect 0 0 1023.5 640))) s in
  exists zw zh : Z,
    canvasSize s' = mkSize (IZR zw) (IZR zh) /\
    IZR zw <= 1023.5 < IZR zw + 1 /\
    IZR zh <= 640 < IZR zh + 1 /\
    canvas_width (elem s') = IZR (2 * zw) /\
    canvas_height (elem s') = IZR (2 * zh).
Proof.
  intros s s'.
  exact (proj1 (resize_rounds_down s (mkRect 0 0 1023.5 640) eq_refl eq_refl)).
Defined.

(** A resize in the middle of a stroke, on a mounted canvas with a 2D
    context, wipes the bitmap down to the background but keeps the session:
    it stays active with the same [lastPoint], so the next brush move still
    draws a segment from the point reached before the resize, now on the
    fresh background. *)
Theorem resize_keeps_the_stroke s rect props e q p :
  canvasRef s = RefElem ->
  supports2d (elem s) = true ->
  isDrawing s = true ->
  lastPoint s = Some q ->
  tool props = brush ->
  let s1 := exec (updateSize (Some rect)) s in
  result (getCoordinates e) s1 = Returned p ->
  bitmap (elem s1) = [backdrop (canvasSize s1)] /\
  isDrawing s1 = true /\
  lastPoint s1 = Some q /\
  result (handleMove props e) s1 = Returned tt /\
  bitmap (elem (exec (handleMove props e) s1)) =
    [backdrop (canvasSize s1); brush_segment logical_pen props q p].
Proof.
  intros Hc H2 Hd Hl Ht s1 Hp.
  assert (E1 := updateSize_ready s rect Hc H2). cbv zeta in E1.
  assert (Hs1 : s1 = snd (updateSize (Some rect) s)) by reflexivity.
  rewrite E1 in Hs1. cbn [snd] in Hs1.
  assert (Hb : bitmap (elem s1) = [backdrop (canvasSize s1)]).
  { rewrite Hs1. cbn [elem bitmap canvasSize]. unfold backdrop. cbn [width height].
    now rewrite Rmult_1_l. }
  assert (Hpen : pen s1 = logical_pen).
  { rewrite Hs1. unfold pen, pen_of. cbn [elem context transform lineCap lineJoin].
    apply logical_pen_eq. }
  assert (Hd1 : isDrawing s1 = true) by (rewrite Hs1; exact Hd).
  assert (Hl1 : lastPoint s1 = Some q) by (rewrite Hs1; exact Hl).
  assert (Hx1 : contextRef s1 = RefElem) by (rewrite Hs1; reflexivity).
  rewrite result_getCoordinates in Hp.
  destruct (handleMove_brush_step s1 props e p q Hd1 Hx1 Hl1 Ht Hp) as (c' & _ & E).
  split; [exact Hb|]. split; [exact Hd1|]. split; [exact Hl1|].
  unfold result, exec. rewrite E. cbn [fst snd with_lastPoint repaint elem bitmap
                                       moving with_prevented].
  split; [reflexivity|]. now rewrite Hb, Hpen.
Qed.

Lemma resize_keeps_the_stroke_witness :
  let props := mkProps "#e63946" brush 12 in
  let s := perform (act_event props (onMouseDown (MouseEvent 10 10)))
             (perform act_effect (perform act_mount (initial rect0 true (fun _ => 0)))) in
  let s1 := exec (updateSize (Some (mkRect 0 0 1024 640))) s in
  bitmap (elem (exec (handleMove props (MouseEvent 50 10)) s1)) =
    [backdrop (canvasSize s1);
     brush_segment logical_pen props (mkPoint (10 - 0) (10 - 0))
       (mkPoint (50 - 0) (10 - 0))].
Proof.
  intros props s s1.
  exact (proj2 (proj2 (proj2 (proj2
    (resize_keeps_the_stroke s (mkRect 0 0 1024 640) props (MouseEvent 50 10)
       (mkPoint (10 - 0) (10 - 0)) (mkPoint (50 - 0) (10 - 0))
       eq_refl eq_refl eq_refl eq_refl eq_refl eq_refl))))).
Defined.

(** ** Setup without a canvas or without a context *)

(** While [canvasRef] is null the setup effect does nothing at all.  On a
    mounted canvas whose 2D context cannot be had it still sets the
    backing store to twice the logical size and the style to the logical
    size, which wipes the bitmap and resets the context, but it paints
    nothing and leaves [contextRef] and the session as they were. *)
Theorem setup_without_context s w h :
  canvasSize s = mkSize w h ->
  (canvasRef s = RefNull -> setupCanvas s = (Returned tt, s)) /\
  (canvasRef s = RefElem -> supports2d (elem s) = false ->
   let s' := exec setupCanvas s in
   result setupCanvas s = Returned tt /\
   canvas_width (elem s') = w * 2 /\
   canvas_height (elem s') = h * 2 /\
   style_width (elem s') = Some w /\
   style_height (elem s') = Some h /\
   bitmap (elem s') = [] /\
   context (elem s') = default_context /\
   contextRef s' = contextRef s /\
   isDrawing s' = isDrawing s /\
   lastPoint s' = lastPoint s).
Proof.
  intros Hsz. split.
  - apply setupCanvas_unmounted.
  - intros Hc H2. cbv zeta. unfold result, exec.
    rewrite (setupCanvas_no_context s w h Hc H2 Hsz). repeat split.
Qed.

Lemma setup_without_context_witness :
  let s := exec mount (initial rect0 false (fun _ => 0)) in
  let s' := exec setupCanvas s in
  canvas_width (elem s') = 800 * 2 /\
  bitmap (elem s') = [] /\
  contextRef s' = RefNull /\
  setupCanvas (initial rect0 true (fun _ => 0))
    = (Returned tt, initial rect0 true (fun _ => 0)).
Proof.
  intros s s'.
  destruct (setup_without_context s 800 600 eq_refl) as [_ H].
  destruct (H eq_refl eq_refl) as (_ & W & _ & _ & _ & B & _ & X & _).
  split; [exact W|]. split; [exact B|]. split; [exact X|].
  exact (proj1 (setup_without_context (initial rect0 true (fun _ => 0)) 800 600 eq_refl)
           eq_refl).
Defined.

(** ** The tail and the blob *)

Lemma distance_straight_down x y len :
  0 <= len -> distance_between (mkPoint x y) (mkPoint x (y + len)) = len.
Proof.
  intros H. unfold distance_between. cbn [px py].
  replace ((x - x) * (x - x) + (y + len - y) * (y + len - y)) with (len * len)
    by (unfold number; ring).
  now apply sqrt_square.
Qed.

Section TailAndBlob.
Import PrimFloat.

(** With draws in [0, 1): for a brush size below 40 the tip of the drip's
    teardrop, at (x, y + dripLength), lies outside the blob of radius
    dripWidth whatever the draws, and for an integer brush size below 40
    the radius stays below the taper length whatever rounding follows
    each operation; for a brush size above 40 some draws put the tip
    inside the blob.  At 40 the doubles decide: the largest draw gives a
    radius of exactly 40 and the smallest a taper length of 40, so the tip
    comes to lie on the blob's edge. *)
Theorem drip_tail_sticks_out props x y :
  0 < brushSize props ->
  (brushSize props < 40 ->
   forall u1 u2, 0 <= u1 < 1 -> 0 <= u2 < 1 ->
     ~ in_disc (mkPoint x y) (dripWidth props u2) (mkPoint x (y + dripLength u1))) /\
  (forall (round : number -> number) (z : Z),
     Rounding round -> brushSize props = IZR z -> (z < 40)%Z ->
     forall u1 u2, 0 <= u1 < 1 -> 0 <= u2 < 1 ->
       Rounded.dripWidth round (brushSize props) u2 < Rounded.dripLength round u1) /\
  (40 < brushSize props ->
   exists u1 u2, 0 <= u1 < 1 /\ 0 <= u2 < 1 /\
     in_disc (mkPoint x y) (dripWidth props u2) (mkPoint x (y + dripLength u1))) /\
  Binary64.dripWidth 40%float Binary64.below_one = Binary64.dripLength 0%float.
Proof.
  intros Hb. split; [|split; [|split]].
  - intros Hlt u1 u2 H1 H2. unfold in_disc.
    rewrite distance_straight_down by (unfold dripLength; lra).
    unfold dripLength, dripWidth. unfold number in *. nra.
  - intros round z Hround Hz Hlt u1 u2 H1 H2. rewrite Hz in *.
    assert (Hpos : (0 < z <= 2 ^ 50)%Z) by (split; [apply lt_IZR; exact Hb | lia]).
    pose proof (rounded_dripWidth_range round Hround z Hpos u2 H2) as W.
    pose proof (rounded_dripLength_range round Hround u1 H1) as L.
    assert (IZR z <= 39) by (apply IZR_le; lia). lra.
  - intros Hgt.
    set (u2 := 40 / brushSize props).
    assert (Hm : u2 * brushSize props = 40).
    { unfold u2, Rdiv. rewrite Rmult_assoc, Rinv_l by lra. lra. }
    assert (Hu2 : 0 <= u2 < 1).
    { split.
      - unfold u2. apply Rlt_le, Rdiv_lt_0_compat; lra.
      - apply (Rmult_lt_reg_r (brushSize props)); [exact Hb|]. rewrite Hm. lra. }
    exists 0, u2. split; [lra|]. split; [exact Hu2|].
    unfold in_disc. rewrite distance_straight_down by (unfold dripLength; lra).
    unfold dripLength, dripWidth. rewrite Hm. unfold number in *. lra.
  - reflexivity.
Qed.

Lemma drip_tail_sticks_out_witness :
  let props := mkProps "#e63946" drip 12 in
  ~ in_disc (mkPoint 100 100) (dripWidth props 0.5) (mkPoint 100 (100 + dripLength 0.5)).
Proof.
  intros props.
  assert (Hb : 0 < brushSize props) by (change (0 < 12); lra).
  apply (proj1 (drip_tail_sticks_out props 100 100 Hb)).
  - change (12 < 40). lra.
  - lra.
  - lra.
Defined.

End TailAndBlob.

(** ** How much of the random stream an event uses *)





(** * Properties of the page *)

(** ** The example platform *)

Lemma read_write_string s :
  forall rest cur,
    App.read_list (App.write_string s rest) cur =
    option_map (cons (string_of_list_ascii (rev cur ++ list_ascii_of_string s)))
      (App.read_list rest []).
Proof.
  induction s as [|c s IH]; intros rest cur.
  - cbn [App.write_string App.read_list list_ascii_of_string].
    replace (Ascii.eqb App.stop App.stop) with true by (vm_compute; reflexivity).
    now rewrite app_nil_r.
  - cbn [App.write_string App.read_list list_ascii_of_string].
    replace (Ascii.eqb App.mark App.stop) with false by (vm_compute; reflexivity).
    replace (Ascii.eqb App.mark App.mark) with true by (vm_compute; reflexivity).
    rewrite IH. cbn [rev]. now rewrite <- app_assoc.
Qed.

Lemma read_write_list l : App.read_list (App.write_list l) [] = Some l.
Proof.
  induction l as [|s l IH]; [reflexivity|].
  cbn [App.write_list]. rewrite read_write_string, IH. cbn [option_map rev app].
  now rewrite string_of_list_ascii_of_string.
Qed.

Lemma example_platform_laws : App.platform_laws App.example_platform.
Proof.
  split.
  - intros l. cbn [App.JSON_parse App.JSON_stringify App.example_platform].
    replace (Ascii.eqb App.bracket App.bracket) with true by (vm_compute; reflexivity).
    now rewrite read_write_list.
  - intros l. discriminate.
  - intros d. discriminate.
Qed.

(** ** Two clicks to clear *)

Lemma toolbar_run_cons {A} (onClear : A -> A) ev evs st :
  Toolbar.run onClear (ev :: evs) st = Toolbar.run onClear evs (Toolbar.step onClear ev st).
Proof. reflexivity. Qed.

Lemma toolbar_run_bound evs :
  forall t n,
    let st := Toolbar.run S evs (t, n) in
    (2 * snd st + (if Toolbar.showClearConfirm (fst st) then 1 else 0)
     <= 2 * n + (if Toolbar.showClearConfirm t then 1 else 0) + Toolbar.clicks_in evs)%nat.
Proof.
  induction evs as [|ev evs IH]; intros t n; cbv zeta.
  - unfold Toolbar.clicks_in. cbn. lia.
  - rewrite toolbar_run_cons.
    destruct ev.
    + change (Toolbar.step S Toolbar.Clicked (t, n)) with (Toolbar.handleClear S t n).
      change (Toolbar.clicks_in (Toolbar.Clicked :: evs)) with (S (Toolbar.clicks_in evs)).
      unfold Toolbar.handleClear.
      destruct (Toolbar.showClearConfirm t) eqn:Ht.
      * specialize (IH (Toolbar.mkToolbar false (Toolbar.pendingTimeouts t)) (S n)).
        cbv zeta in IH. cbn [Toolbar.showClearConfirm] in IH. lia.
      * specialize (IH (Toolbar.mkToolbar true (S (Toolbar.pendingTimeouts t))) n).
        cbv zeta in IH. cbn [Toolbar.showClearConfirm] in IH. lia.
    + change (Toolbar.step S Toolbar.TimerFired (t, n)) with (Toolbar.timeout t, n).
      change (Toolbar.clicks_in (Toolbar.TimerFired :: evs)) with (Toolbar.clicks_in evs).
      specialize (IH (Toolbar.timeout t) n). cbv zeta in IH.
      assert (Hle : ((if Toolbar.showClearConfirm (Toolbar.timeout t) then 1 else 0)
                     <= (if Toolbar.showClearConfirm t then 1 else 0))%nat).
      { unfold Toolbar.timeout. destruct (Toolbar.pendingTimeouts t);
          cbn [Toolbar.showClearConfirm]; destruct (Toolbar.showClearConfirm t); lia. }
      lia.
Qed.

(** Over any sequence of clicks on the Clear button and firings of its
    timers, starting with the confirmation hidden, [onClear] has run at
    most half as many times as the button was clicked (counted here by
    letting [onClear] count its own calls).  On the page: a click that
    finds the confirmation hidden leaves the canvas, the artworks and the
    storage untouched and only shows the confirmation; a click that finds
    it showing runs the canvas's [clear()] once and hides it. *)
Theorem clear_needs_two_clicks :
  (forall evs,
     (2 * snd (Toolbar.run S evs (Toolbar.initial, 0%nat)) <= Toolbar.clicks_in evs)%nat) /\
  (forall (P : App.Platform) a canvas toolbar,
     App.view a = App.CreateView canvas toolbar ->
     App.click App.clickClear a =
     if Toolbar.showClearConfirm toolbar
     then App.with_view
            (App.CreateView (exec clear canvas)
               (Toolbar.mkToolbar false (Toolbar.pendingTimeouts toolbar))) a
     else App.with_view
            (App.CreateView canvas
               (Toolbar.mkToolbar true (S (Toolbar.pendingTimeouts toolbar)))) a).
Proof.
  split.
  - intros evs. pose proof (toolbar_run_bound evs Toolbar.initial 0) as B.
    cbv zeta in B. cbn [Toolbar.showClearConfirm Toolbar.initial] in B.
    destruct (Toolbar.showClearConfirm _); lia.
  - intros P a canvas toolbar Hv. unfold App.click. rewrite Hv.
    unfold Toolbar.handleClear. destruct (Toolbar.showClearConfirm toolbar).
    + unfold App.handleClear. rewrite Hv. reflexivity.
    + rewrite Hv. reflexivity.
Qed.

Lemma clear_needs_two_clicks_witness :
  let a := App.first_render App.example_env None in
  (2 * snd (Toolbar.run S [Toolbar.Clicked; Toolbar.TimerFired; Toolbar.Clicked]
              (Toolbar.initial, 0%nat)) <= 2)%nat /\
  App.view (@App.click App.example_platform App.clickClear a) =
    App.CreateView (App.mounted App.example_env) (Toolbar.mkToolbar true 1).
Proof.
  intros a. destruct clear_needs_two_clicks as [B C].
  split.
  - exact (B [Toolbar.Clicked; Toolbar.TimerFired; Toolbar.Clicked]).
  - rewrite (C App.example_platform a (App.mounted App.example_env) Toolbar.initial eq_refl).
    reflexivity.
Defined.

(** ** Deleting an artwork *)

Lemma filter_index_all keep l :
  forall k, (forall i, (k <= i)%nat -> keep i = true) -> App.filter_index keep k l = l.
Proof.
  induction l as [|x l IH]; intros k H; [reflexivity|].
  cbn [App.filter_index]. rewrite (H k) by lia. f_equal. apply IH.
  intros i Hi. apply H. lia.
Qed.

Lemma filter_index_removes l :
  forall k j,
    App.filter_index (fun i => negb (Nat.eqb i (k + j))) k l
    = firstn j l ++ skipn (S j) l.
Proof.
  induction l as [|x l IH]; intros k j.
  - now destruct j.
  - cbn [App.filter_index]. destruct j as [|j].
    + replace (Nat.eqb k (k + 0)) with true by (symmetry; apply Nat.eqb_eq; lia).
      cbn [negb firstn skipn app].
      apply filter_index_all. intros i Hi.
      apply Bool.negb_true_iff, Nat.eqb_neq. lia.
    + replace (Nat.eqb k (k + S j)) with false by (symmetry; apply Nat.eqb_neq; lia).
      cbn [negb firstn skipn app]. f_equal.
      replace (k + S j)%nat with (S k + j)%nat by lia. apply IH.
Qed.

Lemma handleDeleteArtwork_artworks {P : App.Platform} index a :
  App.savedArtworks (App.handleDeleteArtwork index a) =
  firstn index (App.savedArtworks a) ++ skipn (S index) (App.savedArtworks a).
Proof.
  unfold App.handleDeleteArtwork, App.store. cbn [App.savedArtworks].
  exact (filter_index_removes (App.savedArtworks a) 0 index).
Qed.

Lemma handleDeleteArtwork_length {P : App.Platform} index a :
  let l := App.savedArtworks a in
  List.length (App.savedArtworks (App.handleDeleteArtwork index a)) =
    (if (index <? List.length l)%nat then List.length l - 1 else List.length l)%nat.
Proof.
  cbv zeta. rewrite handleDeleteArtwork_artworks, length_app, length_firstn, length_skipn.
  destruct (Nat.ltb_spec index (List.length (App.savedArtworks a))); lia.
Qed.

(** [handleDeleteArtwork index] removes exactly the artwork at [index]:
    those before it keep their place, those after it move up by one, in
    the same order, and the list gets one shorter.  An index past the end
    removes nothing.  Either way the list that results is what is written
    to storage, and the mounted children are left alone. *)
Theorem delete_removes_one {P : App.Platform} index a :
  let l := App.savedArtworks a in
  let a' := App.handleDeleteArtwork index a in
  App.savedArtworks a' = firstn index l ++ skipn (S index) l /\
  (forall i, nth_error (App.savedArtworks a') i =
             if (i <? index)%nat then nth_error l i else nth_error l (S i)) /\
  List.length (App.savedArtworks a') =
    (if (index <? List.length l)%nat then List.length l - 1 else List.length l)%nat /\
  ((List.length l <= index)%nat -> App.savedArtworks a' = l) /\
  App.storage a' = Some (App.JSON_stringify (App.savedArtworks a')) /\
  App.view a' = App.view a.
Proof.
  intros l a'.
  assert (E : App.savedArtworks a' = firstn index l ++ skipn (S index) l)
    by apply handleDeleteArtwork_artworks.
  split; [exact E|]. split; [|split; [|split; [|split; reflexivity]]].
  - intros i. rewrite E, nth_error_app, length_firstn, nth_error_firstn, nth_error_skipn.
    assert (Hnone : forall n, (List.length l <= n)%nat -> nth_error l n = None)
      by (intros n Hn; now apply nth_error_None).
    destruct (Nat.ltb_spec i index) as [Hi|Hi];
      destruct (Nat.ltb_spec i (Nat.min index (List.length l))) as [Hm|Hm];
      try reflexivity; try lia.
    + rewrite !Hnone by lia. reflexivity.
    + destruct (Nat.le_gt_cases index (List.length l)) as [Hl|Hl].
      * f_equal. lia.
      * rewrite !Hnone by lia. reflexivity.
  - apply handleDeleteArtwork_length.
  - intros Hl. rewrite E, firstn_all2, skipn_all2 by lia. apply app_nil_r.
Qed.

(** ** Two clicks to delete *)

Lemma handleSave_grows {P : App.Platform} a :
  App.view (App.handleSave a) = App.view a /\
  (List.length (App.savedArtworks a) <= List.length (App.savedArtworks (App.handleSave a)))%nat.
Proof.
  unfold App.handleSave. destruct (App.view a) as [canvas toolbar|g] eqn:Hv;
    [|now rewrite Hv].
  destruct (result save canvas) as [[snapshot|]|err]; try now rewrite Hv.
  destruct (String.eqb _ _); [now rewrite Hv|].
  unfold App.store. cbn [App.view App.savedArtworks]. rewrite length_app.
  split; [now rewrite Hv | lia].
Qed.

Lemma click_delete_bound {P : App.Platform} c a :
  (2 * List.length (App.savedArtworks a) + App.gallery_armed (App.click c a)
   <= 2 * List.length (App.savedArtworks (App.click c a)) + App.gallery_armed a
      + App.delete_clicks_in [c])%nat.
Proof.
  assert (Hsame : forall a', App.savedArtworks a' = App.savedArtworks a ->
            (App.gallery_armed a' <= App.gallery_armed a)%nat ->
            (2 * List.length (App.savedArtworks a) + App.gallery_armed a'
             <= 2 * List.length (App.savedArtworks a') + App.gallery_armed a
                + App.delete_clicks_in [c])%nat).
  { intros a' -> L. lia. }
  destruct (App.view a) as [canvas toolbar|g] eqn:Hv.
  - (* the create tab *)
    assert (Ha : App.gallery_armed a = 0%nat) by (unfold App.gallery_armed; now rewrite Hv).
    destruct c as [| | | index | | tab env | props ev]; unfold App.click; try rewrite Hv;
      try (apply Hsame; [reflexivity | lia]).
    + destruct (handleSave_grows a) as [V L].
      assert (App.gallery_armed (App.handleSave a) = 0%nat)
        by (unfold App.gallery_armed; now rewrite V, Hv).
      lia.
    + unfold Toolbar.handleClear. destruct (Toolbar.showClearConfirm toolbar).
      * unfold App.handleClear. rewrite Hv. apply Hsame; [reflexivity|].
        unfold App.gallery_armed. cbn. lia.
      * rewrite Hv. apply Hsame; [reflexivity|]. unfold App.gallery_armed. cbn. lia.
    + apply Hsame; [reflexivity|]. unfold App.gallery_armed. cbn. lia.
    + unfold App.setActiveTab. rewrite Hv. destruct tab;
        (apply Hsame; [reflexivity|]); unfold App.gallery_armed; cbn; lia.
    + apply Hsame; [reflexivity|]. unfold App.gallery_armed. cbn. lia.
  - (* the gallery tab *)
    destruct c as [| | | index | | tab env | props ev]; unfold App.click; try rewrite Hv;
      try (apply Hsame; [reflexivity | lia]).
    + unfold Gallery.handleDelete, Gallery.confirms.
      unfold App.gallery_armed at 2. rewrite Hv.
      destruct (Gallery.deleteConfirm g) as [i|] eqn:Hg.
      * destruct (Nat.eqb i index).
        -- pose proof (handleDeleteArtwork_length index a) as L. cbv zeta in L.
           unfold App.gallery_armed. cbn [App.with_view App.view App.savedArtworks
             Gallery.deleteConfirm App.delete_clicks_in filter List.length].
           destruct (Nat.ltb_spec index (List.length (App.savedArtworks a))); lia.
        -- unfold App.gallery_armed. cbn [App.with_view App.view App.savedArtworks
             Gallery.deleteConfirm App.delete_clicks_in filter List.length]. lia.
      * unfold App.gallery_armed. cbn [App.with_view App.view App.savedArtworks
          Gallery.deleteConfirm App.delete_clicks_in filter List.length]. lia.
    + apply Hsame; [reflexivity|]. unfold App.gallery_armed.
      cbn [App.with_view App.view]. rewrite Hv.
      unfold Gallery.timeout. destruct (Gallery.pendingTimeouts g);
        cbn [Gallery.deleteConfirm]; destruct (Gallery.deleteConfirm g); lia.
    + unfold App.setActiveTab. rewrite Hv. destruct tab;
        (apply Hsame; [reflexivity|]); unfold App.gallery_armed;
        cbn [App.with_view App.view]; lia.
Qed.

Lemma clicks_delete_bound {P : App.Platform} cs :
  forall a,
    (2 * List.length (App.savedArtworks a) + App.gallery_armed (App.clicks cs a)
     <= 2 * List.length (App.savedArtworks (App.clicks cs a)) + App.gallery_armed a
        + App.delete_clicks_in cs)%nat.
Proof.
  induction cs as [|c cs IH]; intros a.
  - cbn. lia.
  - change (App.clicks (c :: cs) a) with (App.clicks cs (App.click c a)).
    specialize (IH (App.click c a)). pose proof (click_delete_bound c a) as B.
    assert (E : App.delete_clicks_in (c :: cs)
                = (App.delete_clicks_in [c] + App.delete_clicks_in cs)%nat).
    { unfold App.delete_clicks_in. cbn [filter].
      destruct c; cbn [List.length]; lia. }
    lia.
Qed.

(** Over any sequence of clicks and timer firings on the page, starting
    while no delete confirmation shows, the list of artworks has lost at
    most half as many entries as a delete button was clicked.  A delete
    click on an artwork whose confirmation is not showing deletes nothing
    and changes neither list nor storage: it shows the confirmation for
    that artwork.  A delete click on the artwork whose confirmation is
    showing removes that artwork and hides the confirmation. *)
Theorem delete_needs_two_clicks {P : App.Platform} a :
  App.gallery_armed a = 0%nat ->
  (forall cs,
     (2 * List.length (App.savedArtworks a)
      <= 2 * List.length (App.savedArtworks (App.clicks cs a))
         + App.delete_clicks_in cs)%nat) /\
  (forall g index,
     App.view a = App.GalleryView g ->
     let a' := App.click (App.clickDelete index) a in
     App.savedArtworks a' = App.savedArtworks a /\
     App.storage a' = App.storage a /\
     (exists g', App.view a' = App.GalleryView g' /\
                 Gallery.deleteConfirm g' = Some index) /\
     let a'' := App.click (App.clickDelete index) a' in
     App.savedArtworks a'' =
       firstn index (App.savedArtworks a) ++ skipn (S index) (App.savedArtworks a) /\
     App.gallery_armed a'' = 0%nat).
Proof.
  intros Ha. split.
  - intros cs. pose proof (clicks_delete_bound cs a) as B. lia.
  - intros g index Hv. unfold App.gallery_armed in Ha. rewrite Hv in Ha.
    destruct (Gallery.deleteConfirm g) as [i|] eqn:Hg; [discriminate Ha|].
    set (armed := App.with_view (App.GalleryView
                    (Gallery.mkGallery (Gallery.selectedImage g) (Some index)
                       (S (Gallery.pendingTimeouts g)))) a).
    assert (E1 : App.click (App.clickDelete index) a = armed).
    { unfold App.click. rewrite Hv. unfold Gallery.handleDelete, Gallery.confirms.
      now rewrite Hg. }
    assert (E2 : App.click (App.clickDelete index) armed =
                 App.with_view (App.GalleryView
                    (Gallery.mkGallery (Gallery.selectedImage g) None
                       (S (Gallery.pendingTimeouts g))))
                   (App.handleDeleteArtwork index armed)).
    { unfold App.click, armed. cbn [App.view App.with_view].
      unfold Gallery.handleDelete, Gallery.confirms. cbn [Gallery.deleteConfirm
        Gallery.selectedImage Gallery.pendingTimeouts].
      now rewrite Nat.eqb_refl. }
    cbv zeta. rewrite E1, E2.
    split; [reflexivity|]. split; [reflexivity|].
    split; [eexists; split; reflexivity|].
    split; [exact (handleDeleteArtwork_artworks index armed) | reflexivity].
Qed.

Lemma delete_needs_two_clicks_witness :
  let a := App.mkApp ["one"; "two"; "three"]%string true None
             (App.GalleryView Gallery.initial) in
  let once := @App.click App.example_platform (App.clickDelete 1) a in
  let twice := @App.click App.example_platform (App.clickDelete 1) once in
  App.savedArtworks once = ["one"; "two"; "three"]%string /\
  App.savedArtworks twice = ["one"; "three"]%string.
Proof.
  intros a once twice.
  destruct (@delete_needs_two_clicks App.example_platform a eq_refl) as [_ H].
  destruct (H Gallery.initial 1%nat eq_refl) as (A & _ & _ & B & _).
  split; [exact A | exact B].
Defined.

(** ** Saving an artwork *)

(** On the create tab with the canvas mounted, [handleSave] appends the
    data URL of the canvas's current snapshot at the end of the list,
    writes the list that results to storage, and leaves the canvas, the
    toolbar and the loaded flag alone.  On the gallery tab, or while the
    canvas ref is null, it changes nothing. *)
Theorem save_appends_snapshot {P : App.Platform} a :
  App.platform_laws P ->
  (forall canvas toolbar,
     App.view a = App.CreateView canvas toolbar ->
     canvasRef canvas = RefElem ->
     let a' := App.handleSave a in
     App.savedArtworks a' =
       App.savedArtworks a ++ [App.dataURL_text (toDataURL (elem canvas))] /\
     App.storage a' = Some (App.JSON_stringify (App.savedArtworks a')) /\
     App.view a' = App.view a /\
     App.isLoaded a' = App.isLoaded a) /\
  (forall canvas toolbar,
     App.view a = App.CreateView canvas toolbar ->
     canvasRef canvas = RefNull -> App.handleSave a = a) /\
  (forall g, App.view a = App.GalleryView g -> App.handleSave a = a).
Proof.
  intros Laws. split; [|split].
  - intros canvas toolbar Hv Hc. cbv zeta. unfold App.handleSave. rewrite Hv.
    unfold result. rewrite save_spec, Hc. cbn [fst].
    destruct (String.eqb_spec (App.dataURL_text (toDataURL (elem canvas))) EmptyString)
      as [E|_].
    + exfalso. exact (App.dataURL_nonempty P Laws _ E).
    + unfold App.store. cbn [App.savedArtworks App.storage App.view App.isLoaded].
      repeat split. now rewrite Hv.
  - intros canvas toolbar Hv Hc. unfold App.handleSave. rewrite Hv.
    unfold result. now rewrite save_spec, Hc.
  - intros g Hv. unfold App.handleSave. now rewrite Hv.
Qed.

Lemma save_appends_snapshot_witness :
  let a := App.first_render App.example_env None in
  App.savedArtworks (@App.handleSave App.example_platform a)
    = ["data:image/png;base64,"%string].
Proof.
  intros a.
  destruct (@save_appends_snapshot App.example_platform a example_platform_laws)
    as [H _].
  destruct (H (App.mounted App.example_env) Toolbar.initial eq_refl eq_refl) as [E _].
  exact E.
Defined.

(** ** What is stored reads back *)

Lemma store_in_sync {P : App.Platform} l a :
  App.platform_laws P -> App.in_sync (App.store l a).
Proof.
  intros Laws. unfold App.in_sync, App.store. cbn [App.storage App.savedArtworks].
  destruct (String.eqb_spec (App.JSON_stringify l) EmptyString) as [E|_].
  - exfalso. exact (App.stringify_nonempty P Laws _ E).
  - apply (App.parse_stringify P Laws).
Qed.

Lemma in_sync_ext {P : App.Platform} a a' :
  App.savedArtworks a' = App.savedArtworks a ->
  App.storage a' = App.storage a ->
  App.in_sync a -> App.in_sync a'.
Proof. unfold App.in_sync. now intros -> ->. Qed.

Lemma click_keeps_sync {P : App.Platform} c a :
  App.platform_laws P -> App.in_sync a -> App.in_sync (App.click c a).
Proof.
  intros Laws Hs.
  destruct (App.view a) as [canvas toolbar|g] eqn:Hv;
    destruct c as [| | | index | | tab env | props ev]; unfold App.click; try rewrite Hv;
    try exact Hs;
    try (apply (in_sync_ext a); [reflexivity | reflexivity | exact Hs]).
  - unfold App.handleSave. rewrite Hv.
    destruct (result save canvas) as [[snapshot|]|err]; try exact Hs.
    destruct (String.eqb _ _); [exact Hs | now apply store_in_sync].
  - unfold Toolbar.handleClear. destruct (Toolbar.showClearConfirm toolbar).
    + unfold App.handleClear. rewrite Hv.
      apply (in_sync_ext a); [reflexivity | reflexivity | exact Hs].
    + rewrite Hv. apply (in_sync_ext a); [reflexivity | reflexivity | exact Hs].
  - unfold App.setActiveTab. rewrite Hv. destruct tab; [exact Hs|].
    apply (in_sync_ext a); [reflexivity | reflexivity | exact Hs].
  - unfold Gallery.handleDelete. destruct (Gallery.confirms g index).
    + apply (in_sync_ext (App.handleDeleteArtwork index a));
        [reflexivity | reflexivity | now apply store_in_sync].
    + apply (in_sync_ext a); [reflexivity | reflexivity | exact Hs].
  - unfold App.setActiveTab. rewrite Hv. destruct tab; [|exact Hs].
    apply (in_sync_ext a); [reflexivity | reflexivity | exact Hs].
Qed.

Lemma clicks_keep_sync {P : App.Platform} cs :
  App.platform_laws P -> forall a, App.in_sync a -> App.in_sync (App.clicks cs a).
Proof.
  intros Laws. induction cs as [|c cs IH]; intros a Hs; [exact Hs|].
  change (App.clicks (c :: cs) a) with (App.clicks cs (App.click c a)).
  apply IH. now apply click_keeps_sync.
Qed.

Lemma loaded_in_sync {P : App.Platform} env stored a0 :
  App.loadArtworks (App.first_render env stored) = App.LoadOk a0 -> App.in_sync a0.
Proof.
  unfold App.loadArtworks, App.first_render. cbn [App.storage App.savedArtworks App.view].
  destruct stored as [t|].
  - destruct (String.eqb t EmptyString) eqn:Et.
    + intros [= <-]. unfold App.in_sync. cbn [App.storage App.savedArtworks].
      now rewrite Et.
    + destruct (App.JSON_parse t) as [[l|]|] eqn:Ep; try discriminate.
      intros [= <-]. unfold App.in_sync. cbn [App.storage App.savedArtworks].
      now rewrite Et.
  - intros [= <-]. reflexivity.
Qed.

Lemma in_sync_reloads {P : App.Platform} env a :
  App.in_sync a ->
  App.loadArtworks (App.first_render env (App.storage a)) =
  App.LoadOk (App.mkApp (App.savedArtworks a) true (App.storage a)
                (App.CreateView (App.mounted env) Toolbar.initial)).
Proof.
  unfold App.in_sync, App.loadArtworks, App.first_render.
  cbn [App.storage App.savedArtworks App.view].
  destruct (App.storage a) as [t|].
  - destruct (String.eqb t EmptyString).
    + now intros ->.
    + now intros ->.
  - now intros ->.
Qed.

(** Once the page has loaded without throwing, whatever is clicked on it
    afterwards (saves, deletes, clears, tab switches, drawing, timers),
    opening the page again on the storage it has left behind loads
    exactly the list of artworks the page showed last. *)
Theorem reload_restores_artworks {P : App.Platform} env stored a0 cs env' :
  App.platform_laws P ->
  App.loadArtworks (App.first_render env stored) = App.LoadOk a0 ->
  let a := App.clicks cs a0 in
  App.loadArtworks (App.first_render env' (App.storage a)) =
  App.LoadOk (App.mkApp (App.savedArtworks a) true (App.storage a)
                (App.CreateView (App.mounted env') Toolbar.initial)).
Proof.
  intros Laws H0 a. apply in_sync_reloads. apply clicks_keep_sync; [exact Laws|].
  exact (loaded_in_sync env stored a0 H0).
Qed.

Lemma reload_restores_artworks_witness :
  let P := App.example_platform in
  let a0 := App.mkApp [] true None
              (App.CreateView (App.mounted App.example_env) Toolbar.initial) in
  let a := @App.clicks P [App.clickSave; App.clickSave;
                          App.clickTab App.tab_gallery App.example_env;
                          App.clickDelete 0; App.clickDelete 0] a0 in
  @App.loadArtworks P (App.first_render App.example_env (App.storage a)) =
  App.LoadOk (App.mkApp (App.savedArtworks a) true (App.storage a)
                (App.CreateView (App.mounted App.example_env) Toolbar.initial)).
Proof.
  intros P a0 a.
  exact (@reload_restores_artworks P App.example_env None a0 _ App.example_env
           example_platform_laws eq_refl).
Defined.

(** ** Switching tabs *)

Lemma mounted_ready env rect :
  App.has2d env = true ->
  App.container_rect env = Some rect ->
  let w := Math_floor (rect_width rect) in
  let h := Math_floor (rect_height rect) in
  App.mounted env =
  mkState
    (mkCanvas (w * 2) (h * 2) (Some w) (Some h) (App.canvas_rect env) true
       (mkContext (mkTransform (1 * 2) (1 * 2)) cap_round join_round background
          "#000000" 1 [])
       [PaintRect (mkTransform (1 * 2) (1 * 2)) background 0 0 w h])
    RefElem RefElem false None (mkSize w h) (App.randomness env) 0 0.
Proof.
  intros H2 Hc w h. destruct env as [r c has rnd]. cbn [App.has2d App.container_rect
    App.canvas_rect App.randomness] in *. subst has c.
  unfold App.mounted. cbn [App.has2d App.container_rect App.canvas_rect App.randomness].
  unfold exec at 1.
  rewrite (updateSize_ready _ rect) by reflexivity. reflexivity.
Qed.

(** Going to the gallery and back to the create tab keeps the artworks
    and the storage but not the drawing: the canvas that comes back is a
    fresh one, idle, holding nothing but the background over the size its
    container measures, whatever was drawn before; the toolbar comes back
    with its confirmation hidden.  Clicking the tab that is already
    active changes nothing. *)
Theorem tab_switch_loses_the_drawing {P : App.Platform} a env1 env2 canvas toolbar rect :
  App.view a = App.CreateView canvas toolbar ->
  App.has2d env2 = true ->
  App.container_rect env2 = Some rect ->
  let a' := App.clicks [App.clickTab App.tab_gallery env1;
                        App.clickTab App.tab_create env2] a in
  App.savedArtworks a' = App.savedArtworks a /\
  App.storage a' = App.storage a /\
  (exists canvas',
     App.view a' = App.CreateView canvas' Toolbar.initial /\
     bitmap (elem canvas') = [backdrop (canvasSize canvas')] /\
     canvasSize canvas' =
       mkSize (Math_floor (rect_width rect)) (Math_floor (rect_height rect)) /\
     contextRef canvas' = RefElem /\
     isDrawing canvas' = false /\
     lastPoint canvas' = None) /\
  App.click (App.clickTab App.tab_create env2) a = a.
Proof.
  intros Hv H2 Hc a'.
  assert (E : a' = App.with_view (App.CreateView (App.mounted env2) Toolbar.initial) a).
  { unfold a', App.clicks. cbn [fold_left]. unfold App.click, App.setActiveTab.
    rewrite Hv. reflexivity. }
  rewrite E. cbn [App.with_view App.savedArtworks App.storage App.view].
  split; [reflexivity|]. split; [reflexivity|]. split.
  - exists (App.mounted env2). split; [reflexivity|].
    rewrite (mounted_ready env2 rect H2 Hc).
    cbn [elem bitmap canvasSize contextRef isDrawing lastPoint].
    repeat split. unfold backdrop. cbn [width height]. now rewrite Rmult_1_l.
  - unfold App.click, App.setActiveTab. now rewrite Hv.
Qed.

Lemma tab_switch_loses_the_drawing_witness :
  let P := App.example_platform in
  let props := mkProps "#e63946" brush 12 in
  let drawn := exec (gesture props (MouseEvent 10 10) [(props, MouseEvent 50 10)])
                 (App.mounted App.example_env) in
  let a := App.mkApp ["data:image/png;base64,"%string] true None
             (App.CreateView drawn Toolbar.initial) in
  let a' := @App.clicks P [App.clickTab App.tab_gallery App.example_env;
                           App.clickTab App.tab_create App.example_env] a in
  App.savedArtworks a' = App.savedArtworks a /\
  exists canvas',
    App.view a' = App.CreateView canvas' Toolbar.initial /\
    bitmap (elem canvas') = [backdrop (canvasSize canvas')].
Proof.
  intros P props drawn a a'.
  destruct (@tab_switch_loses_the_drawing P a App.example_env App.example_env
              drawn Toolbar.initial rect0 eq_refl eq_refl eq_refl)
    as (A & _ & (canvas' & V & B & _) & _).
  split; [exact A|]. exists canvas'. split; [exact V | exact B].
Defined.

(** ** Downloads *)

Lemma string_length_append (a s : string) :
  String.length (String.append a s) = (String.length a + String.length s)%nat.
Proof. induction a as [|c a IH]; simpl; [reflexivity | now rewrite IH]. Qed.

Lemma append_cancel_r (s a b : string) :
  String.append a s = String.append b s -> a = b.
Proof.
  revert b. induction a as [|c a IH]; intros b H.
  - destruct b as [|d b]; [reflexivity|]. exfalso.
    apply (f_equal String.length) in H.
    cbn [String.append String.length] in H. rewrite string_length_append in H. lia.
  - destruct b as [|d b].
    + exfalso. apply (f_equal String.length) in H.
      cbn [String.append String.length] in H. rewrite string_length_append in H. lia.
    + cbn [String.append] in H. injection H as -> H. f_equal. now apply IH.
Qed.

Lemma decimal_injective i j : Gallery.decimal i = Gallery.decimal j -> i = j.
Proof.
  unfold Gallery.decimal. intros H.
  apply DecimalNat.Unsigned.to_uint_inj.
  apply (f_equal DecimalString.NilEmpty.uint_of_string) in H.
  rewrite !DecimalString.NilEmpty.usu in H. now injection H.
Qed.

(** [handleDownload] names the file after the artwork's position counted
    from one, and links it to the artwork's own data: two downloads get
    the same file name only when they are of the same position in the
    list. *)
Theorem download_names_are_distinct url url' i j :
  Gallery.href (Gallery.handleDownload url i) = url /\
  (Gallery.download (Gallery.handleDownload url i) =
   Gallery.download (Gallery.handleDownload url' j) -> i = j).
Proof.
  split; [reflexivity|].
  unfold Gallery.handleDownload. cbn [Gallery.download]. intros H.
  cbn [String.append] in H.
  repeat match type of H with String _ _ = String _ _ => injection H as H end.
  apply append_cancel_r, decimal_injective in H. lia.
Qed.

End Canvas.
